(** * multirepr_indexing: ingestion and retrieval glue, embedded in Rocq

    The script [multirepr_indexing.py] opens a sqlite table (the Record
    Store), a Chroma collection (the Summary Index), walks a folder,
    partitions every entry into elements, summarizes each element and writes
    one row and one index entry per element.  A second function runs a
    retrieval chain over the two stores.

    The embedding is shallow: every Python function of the script is a Rocq
    function in a state-and-exception monad.  The state holds what the
    script mutates (sqlite files, Chroma collections, connection objects,
    the log); the external collaborators whose code is not part of the
    script (the filesystem listing, [partition], the summary chain,
    [json.dumps], the storage engines' I/O faults, the retrieval chain) are
    the fields of an environment record, so every theorem holds for every
    behaviour of those collaborators. *)

From Stdlib Require Import Ascii String ZArith.
From stdpp Require Import base option list gmap strings pretty.

(** ** Exceptions, results, log records *)

(** Subclasses of Python's [Exception] that the collaborators raise. *)
Inductive exn : Type :=
  | FileNotFoundError     (* os.listdir on a missing folder *)
  | ExtractionError       (* partition on an unsupported or corrupt file *)
  | SummarizationError    (* summary_chain.run *)
  | IntegrityError        (* sqlite3: UNIQUE constraint failed: documents.id *)
  | OperationalError      (* sqlite3: no such table, disk I/O error *)
  | ProgrammingError      (* sqlite3: operation on a closed connection *)
  | EmbeddingError        (* embedding service *)
  | IndexWriteError       (* Chroma write *)
  | SearchError           (* Chroma similarity search *)
  | GenerationError.      (* answer generation *)

#[global] Instance exn_eq_dec : EqDecision exn.
Proof. solve_decision. Defined.

Inductive result (A : Type) : Type :=
  | Ok (a : A)
  | Raise (e : exn).
Arguments Ok {A} a.
Arguments Raise {A} e.

Definition is_ok {A} (r : result A) : bool :=
  match r with Ok _ => true | Raise _ => false end.

(** One constructor per [logging] call of the script; the f-string of each
    call is determined by the constructor and its arguments.  The two
    [Error...] records are logged with [logging.error], the others with
    [logging.info]. *)
Inductive log_record : Type :=
  | DocumentAdded (doc_id : Z)                  (* info,  line 39 *)
  | ErrorAddingDocument (doc_id : Z) (e : exn)  (* error, line 41 *)
  | SummaryAdded (doc_id : Z)                   (* info,  line 47 *)
  | ErrorAddingSummary (doc_id : Z) (e : exn)   (* error, line 49 *)
  | QueryResult (answer : string).              (* info,  line 105 *)

Definition record_doc_id (r : log_record) : option Z :=
  match r with
  | DocumentAdded i | ErrorAddingDocument i _
  | SummaryAdded i | ErrorAddingSummary i _ => Some i
  | QueryResult _ => None
  end.

(** ** Data *)

(** An image descriptor of an element: [img['path']]. *)
Record Image : Type := { path : string }.

(** What [partition] yields: [doc.text] and the two keys of [doc.metadata]
    the script reads; [None] is an absent key. *)
Record Element : Type := {
  text : string;
  page_number : option Z;
  images : option (list Image)
}.

(** The dict literal of lines 69-75. *)
Record Metadata : Type := {
  md_filename : string;
  md_source : string;
  md_pagenumber : Z;
  md_image_count : Z;
  md_images : list (nat * string)
}.

(** The dict handed to [add_documents]: [{"text": .., "metadata": {"id": ..}}]. *)
Record Entry : Type := { e_text : string; e_id : Z }.

(** A [sqlite3.Connection]: the file it was opened on, the rows inserted in
    its open transaction, and whether [close] was called. *)
Record Conn : Type := {
  c_path : string;
  c_pending : gmap Z string;
  c_open : bool
}.

(** A Chroma handle: [persist_directory] and [collection_name]. *)
Abbreviation VectorStore := (string * string)%type (only parsing).

(** The mutable world.  [dbs !! p = Some t]: the sqlite file [p] has a
    [documents] table with committed rows [t].  [stores]: the entries of
    each Chroma collection, in insertion order.  [conns]: connection
    objects by handle.  [log]: records emitted so far, oldest first. *)
Record State : Type := {
  dbs : gmap string (gmap Z string);
  stores : gmap (string * string) (list Entry);
  conns : list Conn;
  log : list log_record
}.

Definition set_dbs (f : gmap string (gmap Z string) → gmap string (gmap Z string))
    (s : State) : State :=
  {| dbs := f (dbs s); stores := stores s; conns := conns s; log := log s |}.
Definition set_stores (f : gmap (string * string) (list Entry) → gmap (string * string) (list Entry))
    (s : State) : State :=
  {| dbs := dbs s; stores := f (stores s); conns := conns s; log := log s |}.
Definition set_conns (f : list Conn → list Conn) (s : State) : State :=
  {| dbs := dbs s; stores := stores s; conns := f (conns s); log := log s |}.
Definition set_log (f : list log_record → list log_record) (s : State) : State :=
  {| dbs := dbs s; stores := stores s; conns := conns s; log := f (log s) |}.

(** ** The state-and-exception monad *)

Definition M (A : Type) : Type := State → result A * State.

Definition ret {A} (a : A) : M A := λ s, (Ok a, s).
Definition bind {A B} (m : M A) (k : A → M B) : M B :=
  λ s, match m s with
       | (Ok a, s') => k a s'
       | (Raise e, s') => (Raise e, s')
       end.
(** A call into a collaborator: its result is returned or raised. *)
Definition lift {A} (r : result A) : M A := λ s, (r, s).
(** [try: body except Exception as e: handler e]. *)
Definition try_except {A} (body : M A) (handler : exn → M A) : M A :=
  λ s, match body s with
       | (Ok a, s') => (Ok a, s')
       | (Raise e, s') => handler e s'
       end.

Declare Scope py_scope.
Delimit Scope py_scope with py.
Notation "x <- c1 ;; c2" := (bind c1 (λ x, c2))
  (at level 100, c1 at next level, right associativity) : py_scope.
Notation "c1 ;; c2" := (bind c1 (λ _, c2))
  (at level 100, right associativity) : py_scope.
Local Open Scope py_scope.

(** [for x in xs: body x]. *)
Fixpoint for_each {A} (body : A → M unit) (xs : list A) : M unit :=
  match xs with
  | [] => ret tt
  | x :: xs' => body x ;; for_each body xs'
  end.

(** [enumerate(xs, start)]. *)
Fixpoint enumerate {A} (start : Z) (xs : list A) : list (Z * A) :=
  match xs with
  | [] => []
  | x :: xs' => (start, x) :: enumerate (start + 1) xs'
  end.

(** [enumerate(xs)], positions from 0, as the dict comprehension uses it. *)
Definition enumerate0 {A} (xs : list A) : list (nat * A) := imap pair xs.

(** ** [os.path.join] (posixpath, two arguments) *)

Definition sep : string := "/".

Fixpoint endswith_sep (p : string) : bool :=
  match p with
  | EmptyString => false
  | String c EmptyString => bool_decide (c = "/"%char)
  | String _ rest => endswith_sep rest
  end.

Definition startswith_sep (b : string) : bool :=
  match b with
  | String c _ => bool_decide (c = "/"%char)
  | EmptyString => false
  end.

Definition os_path_join (a b : string) : string :=
  if startswith_sep b then b
  else if bool_decide (a = ""%string) || endswith_sep a then (a ++ b)%string
  else (a ++ sep ++ b)%string.

(** ** logging *)

Definition logging (r : log_record) : M unit :=
  λ s, (Ok tt, set_log (λ l, l ++ [r]) s).

(** ** The metadata of one element (lines 69-75) *)

Definition build_metadata (filename file_path : string) (doc : Element) : Metadata :=
  {| md_filename := filename;
     md_source := file_path;
     md_pagenumber := default 0%Z (page_number doc);
     md_image_count := Z.of_nat (length (default [] (images doc)));
     md_images := (λ p, (p.1, path p.2)) <$> enumerate0 (default [] (images doc)) |}.

(** ** The collaborators

    Code that the script calls and does not contain.  Each is a function,
    so a collaborator answers the same call the same way every time. *)
Record Env : Type := {
  (** [os.listdir(folder_path)], in the order the filesystem gives. *)
  listdir : string → result (list string);
  (** [partition(file_path)]. *)
  partition : string → result (list Element);
  (** [summary_chain.run(content)]. *)
  summary_chain_run : string → result string;
  (** [json.dumps(metadata)]; total on the typed metadata of the script. *)
  json_dumps : Metadata → string;
  (** An I/O failure of the sqlite engine on [INSERT (id, metadata_json)]. *)
  insert_fault : Z → string → option exn;
  (** A failure of Chroma or of the embedding call on one added entry. *)
  add_documents_fault : Entry → option exn;
  (** [retrieval_chain.run(query)] over the table behind the connection
      (if the file has one) and the entries of the collection. *)
  retrieval_chain_run :
    option (gmap Z string) → list Entry → string → result string
}.

Abbreviation handle := nat (only parsing).

Definition fresh_conn (database : string) : Conn :=
  {| c_path := database; c_pending := ∅; c_open := true |}.
Definition close_conn (c : Conn) : Conn :=
  {| c_path := c_path c; c_pending := ∅; c_open := false |}.
Definition with_pending (p : gmap Z string) (c : Conn) : Conn :=
  {| c_path := c_path c; c_pending := p; c_open := c_open c |}.

(** ** sqlite3 *)

(** [sqlite3.connect(database)]: a new open connection object on the file
    [database].  Databases are told apart by that name, which is right for
    files; the private databases sqlite opens for [:memory:] and the empty
    name are not modelled, and opening is taken to succeed. *)
Definition sqlite3_connect (database : string) : M handle :=
  λ s, (Ok (length (conns s)),
        set_conns (λ cs, cs ++ [fresh_conn database]) s).

(** Any operation on a closed connection raises [ProgrammingError]. *)
Definition get_open (conn : handle) : M Conn :=
  λ s, match conns s !! conn with
       | Some c => if c_open c then (Ok c, s) else (Raise ProgrammingError, s)
       | None => (Raise ProgrammingError, s)
       end.

(** [conn.cursor()]. *)
Definition conn_cursor (conn : handle) : M handle :=
  _ <- get_open conn ;; ret conn.

(** [cursor.execute('CREATE TABLE IF NOT EXISTS documents (...)')]. *)
Definition execute_create_table (cursor : handle) : M unit :=
  c <- get_open cursor ;;
  λ s, (Ok tt,
        set_dbs (λ d, match d !! c_path c with
                      | Some _ => d
                      | None => <[c_path c := ∅]> d
                      end) s).

(** [conn.commit()]: the rows of the open transaction become durable.  An
    engine failure is modelled where the statement runs ([insert_fault]), not
    at the commit; [conn_commit_txn] below is the commit that can fail. *)
Definition conn_commit (conn : handle) : M unit :=
  c <- get_open conn ;;
  λ s, (Ok tt,
        set_conns (λ cs, <[conn := with_pending ∅ c]> cs)
          (set_dbs (λ d, match d !! c_path c with
                         | Some t => <[c_path c := c_pending c ∪ t]> d
                         | None => d
                         end) s)).

(** [conn.close()]: uncommitted rows are dropped. *)
Definition conn_close (conn : handle) : M unit :=
  λ s, match conns s !! conn with
       | Some c => (Ok tt, set_conns (λ cs, <[conn := close_conn c]> cs) s)
       | None => (Raise ProgrammingError, s)
       end.

(** ** Chroma *)

(** [Chroma(embeddings, collection_name=.., persist_directory=..)]: opens
    the collection, creating it empty when it does not exist; opening is
    taken to succeed. *)
Definition Chroma (collection_name persist_directory : string) : M VectorStore :=
  λ s, let vs := (persist_directory, collection_name) in
       (Ok vs,
        set_stores (λ m, match m !! vs with
                         | Some _ => m
                         | None => <[vs := []]> m
                         end) s).

Section Script.
Context (E : Env).

(** [cursor.execute('INSERT INTO documents (id, metadata) VALUES (?, ?)')]:
    [id] is the primary key, so a row with that id, committed or pending,
    makes the statement fail; nothing is replaced. *)
Definition execute_insert (cursor : handle) (id : Z) (metadata_json : string) : M unit :=
  c <- get_open cursor ;;
  λ s, match dbs s !! c_path c with
       | None => (Raise OperationalError, s)
       | Some t =>
         if bool_decide (is_Some (t !! id)) || bool_decide (is_Some (c_pending c !! id))
         then (Raise IntegrityError, s)
         else match insert_fault E id metadata_json with
              | Some e => (Raise e, s)
              | None =>
                (Ok tt,
                 set_conns (λ cs, <[cursor := with_pending (<[id := metadata_json]> (c_pending c)) c]> cs) s)
              end
       end.

(** [summary_vector_store.add_documents(documents)]: all entries are
    appended, or the first failing entry raises and none is. *)
Definition add_documents (vs : VectorStore) (documents : list Entry) : M unit :=
  λ s, match head (omap (add_documents_fault E) documents) with
       | Some e => (Raise e, s)
       | None =>
         (Ok tt, set_stores (λ m, <[vs := default [] (m !! vs) ++ documents]> m) s)
       end.

(** Lines 18-19. *)
Definition connect_db (db_name : option string) : M handle :=
  sqlite3_connect (default "documents.db"%string db_name).

(** Lines 21-29. *)
Definition create_table (conn : handle) : M unit :=
  cursor <- conn_cursor conn ;;
  execute_create_table cursor ;;
  conn_commit conn.

(** Lines 32-41. *)
Definition add_document (conn : handle) (doc_id : Z) (metadata : Metadata) : M unit :=
  try_except
    (cursor <- conn_cursor conn ;;
     let metadata_json := json_dumps E metadata in
     execute_insert cursor doc_id metadata_json ;;
     conn_commit conn ;;
     logging (DocumentAdded doc_id))
    (λ e, logging (ErrorAddingDocument doc_id e)).

(** Lines 44-49. *)
Definition add_summary (doc_id : Z) (summary : string) (summary_vector_store : VectorStore)
    : M unit :=
  try_except
    (add_documents summary_vector_store [{| e_text := summary; e_id := doc_id |}] ;;
     logging (SummaryAdded doc_id))
    (λ e, logging (ErrorAddingSummary doc_id e)).

(** Lines 67-78: the body of the inner loop. *)
Definition process_element (conn : handle) (summary_vector_store : VectorStore)
    (doc_id : Z) (filename file_path : string) (doc : Element) : M unit :=
  let content := text doc in
  let metadata := build_metadata filename file_path doc in
  summary <- lift (summary_chain_run E content) ;;
  add_document conn doc_id metadata ;;
  add_summary doc_id summary summary_vector_store.

(** Lines 63-78: the body of the outer loop. *)
Definition process_file (conn : handle) (summary_vector_store : VectorStore)
    (folder_path : string) (item : Z * string) : M unit :=
  let '(doc_id, filename) := item in
  let file_path := os_path_join folder_path filename in
  documents <- lift (partition E file_path) ;;
  for_each (process_element conn summary_vector_store doc_id filename file_path) documents.

(** Lines 52-80.  [SummaryChain(llm=..)] (line 60) only builds the object
    whose [run] is [summary_chain_run]; the listing is read when the loop
    starts, after the stores are open. *)
Definition process_documents (folder_path vector_db_path : string) : M unit :=
  conn <- connect_db None ;;
  create_table conn ;;
  summary_vector_store <- Chroma "summary_vectors" vector_db_path ;;
  entries <- lift (listdir E folder_path) ;;
  for_each (process_file conn summary_vector_store folder_path) (enumerate 1 entries) ;;
  conn_close conn.

(** [retrieval_chain.run(query)]: the chain reads the collection through
    the retriever and the table through the connection it was given as
    byte store. *)
Definition chain_run (summary_vector_store : VectorStore) (conn : handle) (query : string)
    : M string :=
  λ s, (retrieval_chain_run E
          (c ← conns s !! conn; dbs s !! c_path c)
          (default [] (stores s !! summary_vector_store))
          query, s).

(** Lines 83-107.  The retriever and the chain (lines 91-101) only wrap the
    collection and the connection; the work is in [retrieval_chain.run].
    The function has no [return]: the answer is logged, not returned. *)
Definition run_retrieval_chain (vector_db_path query : string) : M unit :=
  conn <- connect_db None ;;
  summary_vector_store <- Chroma "summary_vectors" vector_db_path ;;
  result <- chain_run summary_vector_store conn query ;;
  logging (QueryResult result) ;;
  conn_close conn.

(** Lines 110-118. *)
Definition main : M unit :=
  let folder_path := "path/to/documents"%string in
  let vector_db_path := "path/to/vector_db"%string in
  process_documents folder_path vector_db_path ;;
  let query := "What is the content of Document 1?"%string in
  run_retrieval_chain vector_db_path query.

End Script.

(** ** What a run does, read off the collaborators

    [add_document] and [add_summary] catch what they raise, so which
    elements a run reaches, and the exception that ends it if one does,
    depend on [listdir], [partition] and the summary chain only.  [plan]
    computes that: the store writes the run performs, in order, and the
    exception that escapes, if any.  [process_documents_runs_plan] below
    proves that [process_documents] performs exactly these writes. *)

(** One pass through lines 76-78: the arguments of the two store writes. *)
Record Call : Type := {
  call_id : Z;
  call_metadata : Metadata;
  call_summary : string
}.

Definition call_entry (c : Call) : Entry :=
  {| e_text := call_summary c; e_id := call_id c |}.

Section Plan.
Context (E : Env).

Fixpoint element_calls (doc_id : Z) (filename file_path : string) (docs : list Element)
    : list Call * option exn :=
  match docs with
  | [] => ([], None)
  | doc :: rest =>
    match summary_chain_run E (text doc) with
    | Raise e => ([], Some e)
    | Ok summary =>
      let c := {| call_id := doc_id;
                  call_metadata := build_metadata filename file_path doc;
                  call_summary := summary |} in
      let '(cs, r) := element_calls doc_id filename file_path rest in
      (c :: cs, r)
    end
  end.

Fixpoint file_calls (folder_path : string) (items : list (Z * string))
    : list Call * option exn :=
  match items with
  | [] => ([], None)
  | (doc_id, filename) :: rest =>
    let file_path := os_path_join folder_path filename in
    match partition E file_path with
    | Raise e => ([], Some e)
    | Ok docs =>
      match element_calls doc_id filename file_path docs with
      | (cs, Some e) => (cs, Some e)
      | (cs, None) =>
        let '(cs', r) := file_calls folder_path rest in
        (cs ++ cs', r)
      end
    end
  end.

Definition plan (folder_path : string) : list Call * option exn :=
  match listdir E folder_path with
  | Raise e => ([], Some e)
  | Ok entries => file_calls folder_path (enumerate 1 entries)
  end.

Definition outcome (r : option exn) : result unit :=
  match r with None => Ok tt | Some e => Raise e end.

(** Ending a run of writes with the exception the plan ends in. *)
Definition then_outcome (r : option exn) (m : result unit * State) : result unit * State :=
  match m with
  | (Ok _, s') => (outcome r, s')
  | (Raise e, s') => (Raise e, s')
  end.

(** The table after one [add_document] on a fresh transaction. *)
Definition insert_row (t : gmap Z string) (c : Call) : gmap Z string :=
  if bool_decide (is_Some (t !! call_id c)) then t
  else match insert_fault E (call_id c) (json_dumps E (call_metadata c)) with
       | Some _ => t
       | None => <[call_id c := json_dumps E (call_metadata c)]> t
       end.

(** The record [add_document] logs. *)
Definition document_record (t : gmap Z string) (c : Call) : log_record :=
  if bool_decide (is_Some (t !! call_id c)) then ErrorAddingDocument (call_id c) IntegrityError
  else match insert_fault E (call_id c) (json_dumps E (call_metadata c)) with
       | Some e => ErrorAddingDocument (call_id c) e
       | None => DocumentAdded (call_id c)
       end.

(** The entries [add_summary] appends, and the record it logs. *)
Definition index_adds (c : Call) : list Entry :=
  match add_documents_fault E (call_entry c) with
  | Some _ => []
  | None => [call_entry c]
  end.

Definition summary_record (c : Call) : log_record :=
  match add_documents_fault E (call_entry c) with
  | Some e => ErrorAddingSummary (call_id c) e
  | None => SummaryAdded (call_id c)
  end.

Fixpoint calls_log (t : gmap Z string) (cs : list Call) : list log_record :=
  match cs with
  | [] => []
  | c :: rest => document_record t c :: summary_record c :: calls_log (insert_row t c) rest
  end.

(** Lines 77-78 for one element. *)
Definition write_call (conn : handle) (vs : VectorStore) (c : Call) : M unit :=
  add_document E conn (call_id c) (call_metadata c) ;;
  add_summary E (call_id c) (call_summary c) vs.

End Plan.

(** ** Observations on the stores *)

(** [Record Store.get]: the committed row of [id] in the sqlite file. *)
Definition record_store_get (s : State) (db_name : string) (id : Z) : option string :=
  t ← dbs s !! db_name; t !! id.

Definition record_store_rows (s : State) (db_name : string) : nat :=
  size (default ∅ (dbs s !! db_name)).

(** The entries of a collection, oldest first. *)
Definition summary_index (s : State) (vs : VectorStore) : list Entry :=
  default [] (stores s !! vs).

Definition the_db : string := "documents.db".
Definition the_collection (vector_db_path : string) : VectorStore :=
  (vector_db_path, "summary_vectors"%string).

(** The state of the connection a run opens: it is the next handle. *)
Definition run_conn (before after : State) : option Conn :=
  conns after !! length (conns before).

(** ** A concrete environment, for running the script *)

Module Example.

Definition page1 : Element :=
  {| text := "hello world"; page_number := Some 1%Z;
     images := Some [ {| path := "img/fig1.png" |}; {| path := "img/fig2.png" |} ] |}.
Definition page2 : Element :=
  {| text := "second page"; page_number := Some 2%Z; images := None |}.
Definition page3 : Element :=
  {| text := "third page"; page_number := Some 3%Z; images := Some [] |}.
Definition note : Element :=
  {| text := "a note"; page_number := None; images := None |}.
Definition garbled : Element :=
  {| text := "garbled"; page_number := None; images := None |}.

(** Folders and their listings. *)
Definition folders : gmap string (list string) :=
  list_to_map
    [ ("docs"%string, ["a.txt"%string]);
      ("mixed"%string, ["a.txt"; "bad.bin"; "c.txt"]%string);
      ("hard"%string, ["g.txt"; "c.txt"]%string);
      ("faulty"%string, ["a.txt"; "b.txt"; "c.txt"]%string) ].

(** Files that partition; every other path fails to. *)
Definition files : gmap string (list Element) :=
  list_to_map
    [ ("docs/a.txt"%string, [page1; page2]);
      ("mixed/a.txt"%string, [page1; page2]);
      ("mixed/c.txt"%string, [note]);
      ("hard/g.txt"%string, [page1; garbled; page2]);
      ("hard/c.txt"%string, [note]);
      ("faulty/a.txt"%string, [page1]);
      ("faulty/b.txt"%string, [note]);
      ("faulty/c.txt"%string, [page3]) ].

Definition dq : string := String (ascii_of_nat 34) EmptyString.
Definition quoted (s : string) : string := (dq ++ s ++ dq)%string.

Fixpoint dumps_images (l : list (nat * string)) : string :=
  match l with
  | [] => ""%string
  | [(i, p)] => (quoted (pretty i) ++ ": " ++ quoted p)%string
  | (i, p) :: rest => (quoted (pretty i) ++ ": " ++ quoted p ++ ", " ++ dumps_images rest)%string
  end.

(** [json.dumps] on strings that need no escaping. *)
Definition dumps (m : Metadata) : string :=
  ("{" ++ quoted "filename" ++ ": " ++ quoted (md_filename m) ++ ", "
       ++ quoted "source" ++ ": " ++ quoted (md_source m) ++ ", "
       ++ quoted "pagenumber" ++ ": " ++ pretty (md_pagenumber m) ++ ", "
       ++ quoted "image_count" ++ ": " ++ pretty (md_image_count m) ++ ", "
       ++ quoted "images" ++ ": {" ++ dumps_images (md_images m) ++ "}}")%string.

Definition env : Env :=
  {| listdir := λ p, match folders !! p with
                     | Some l => Ok l
                     | None => Raise FileNotFoundError
                     end;
     partition := λ p, match files !! p with
                       | Some l => Ok l
                       | None => Raise ExtractionError
                       end;
     summary_chain_run := λ content,
       if bool_decide (content = "garbled"%string) then Raise SummarizationError
       else Ok ("summary: " ++ content)%string;
     json_dumps := dumps;
     insert_fault := λ id _,
       if bool_decide (id = 2%Z) then Some OperationalError else None;
     add_documents_fault := λ e,
       if bool_decide (e_text e = "summary: third page"%string) then Some EmbeddingError
       else None;
     retrieval_chain_run := λ _ _ query,
       if bool_decide (query = ""%string) then Raise EmbeddingError
       else Ok ("answer to: " ++ query)%string |}.

(** No sqlite file, no collection, no connection, nothing logged. *)
Definition fresh : State := {| dbs := ∅; stores := ∅; conns := []; log := [] |}.

(** The state a run is in when it enters its loop for the first time:
    connection 0 open on [documents.db], an empty table, an empty
    collection under [vdb]. *)
Definition ready : State :=
  {| dbs := {[ "documents.db"%string := ∅ ]};
     stores := {[ ("vdb"%string, "summary_vectors"%string) := [] ]};
     conns := [fresh_conn "documents.db"];
     log := [] |}.

Definition meta1 : Metadata := build_metadata "a.txt" "docs/a.txt" page1.
Definition meta2 : Metadata := build_metadata "a.txt" "docs/a.txt" page2.

End Example.

(** ** Where a write comes from *)

(** The write [c] is for an element [doc] of the file [filename] that the
    loop header paired with [doc_id]. *)
Definition call_of (E : Env) (folder_path : string) (doc_id : Z) (filename : string)
    (c : Call) : Prop :=
  ∃ docs doc,
    partition E (os_path_join folder_path filename) = Ok docs ∧
    doc ∈ docs ∧
    summary_chain_run E (text doc) = Ok (call_summary c) ∧
    call_id c = doc_id ∧
    call_metadata c = build_metadata filename (os_path_join folder_path filename) doc.

(** The write [c] is for an element of the [i]-th listed entry (from 0). *)
Definition call_origin (E : Env) (folder_path : string) (entries : list string)
    (c : Call) : Prop :=
  ∃ (i : nat) filename,
    entries !! i = Some filename ∧
    call_of E folder_path (Z.of_nat i + 1) filename c.

(** ** Vocabulary of the statements *)

(** The file partitions and each of its elements summarizes. *)
Definition file_ok (E : Env) (folder_path filename : string) : bool :=
  match partition E (os_path_join folder_path filename) with
  | Ok docs => forallb (λ doc, is_ok (summary_chain_run E (text doc))) docs
  | Raise _ => false
  end.


(** The records a run appended to the log. *)
Definition new_records (before after : State) : list log_record :=
  drop (length (log before)) (log after).


(** ** Entries with nothing in them *)

(** A second environment: [Example.env] with a folder [empty] that lists
    nothing and a folder [blank] whose one entry partitions into no
    element. *)
Module Edge.

Definition env : Env :=
  {| listdir := λ p,
       if bool_decide (p = "empty"%string) then Ok []
       else if bool_decide (p = "blank"%string) then Ok ["e.txt"%string]
       else listdir Example.env p;
     partition := λ p,
       if bool_decide (p = "blank/e.txt"%string) then Ok []
       else partition Example.env p;
     summary_chain_run := summary_chain_run Example.env;
     json_dumps := json_dumps Example.env;
     insert_fault := insert_fault Example.env;
     add_documents_fault := add_documents_fault Example.env;
     retrieval_chain_run := retrieval_chain_run Example.env |}.

End Edge.

(** The arguments of [main] (lines 111, 112 and 117). *)
Definition main_folder_path : string := "path/to/documents".
Definition main_vector_db_path : string := "path/to/vector_db".
Definition main_query : string := "What is the content of Document 1?".

(** Records that report a stored summary. *)
Definition is_summary_added (r : log_record) : bool :=
  match r with SummaryAdded _ => true | _ => false end.

Definition count_records (p : log_record → bool) (l : list log_record) : nat :=
  length (List.filter p l).

(** ** A commit that can fail

    [conn.commit()] (line 38) runs inside the [try] of [add_document],
    after the INSERT, and it can raise.  [conn_commit] above always
    succeeds on an open connection.  [conn_commit_txn] takes the engine's
    verdict on the transaction it is asked to commit: when the commit
    raises, nothing becomes durable and the transaction stays open with its
    rows pending, since the script never rolls back.  [add_document_txn] is
    lines 32-41 over this commit; with a commit that never fails it is
    [add_document]. *)

Definition conn_commit_txn (commit_fault : gmap Z string → option exn) (conn : handle)
    : M unit :=
  c <- get_open conn ;;
  match commit_fault (c_pending c) with
  | Some e => lift (Raise e)
  | None => conn_commit conn
  end.

(** Lines 32-41, with a commit that can fail. *)
Definition add_document_txn (E : Env) (commit_fault : gmap Z string → option exn)
    (conn : handle) (doc_id : Z) (metadata : Metadata) : M unit :=
  try_except
    (cursor <- conn_cursor conn ;;
     let metadata_json := json_dumps E metadata in
     execute_insert E cursor doc_id metadata_json ;;
     conn_commit_txn commit_fault conn ;;
     logging (DocumentAdded doc_id))
    (λ e, logging (ErrorAddingDocument doc_id e)).

(** An engine that cannot commit a transaction of exactly one row (a lock
    held just then), and commits every other. *)
Definition busy_for_one_row (pending : gmap Z string) : option exn :=
  if bool_decide (size pending = 1) then Some OperationalError else None.

(** The run over this commit: lines 52-80 with [add_document_txn] where
    the script calls [add_document].  The commit of [create_table] (line
    29) has no row to store and is taken to succeed, as the opening of the
    stores is. *)

Section ScriptTxn.
Context (E : Env) (commit_fault : gmap Z string → option exn).

(** Lines 67-78. *)
Definition process_element_txn (conn : handle) (summary_vector_store : VectorStore)
    (doc_id : Z) (filename file_path : string) (doc : Element) : M unit :=
  let content := text doc in
  let metadata := build_metadata filename file_path doc in
  summary <- lift (summary_chain_run E content) ;;
  add_document_txn E commit_fault conn doc_id metadata ;;
  add_summary E doc_id summary summary_vector_store.

(** Lines 63-78. *)
Definition process_file_txn (conn : handle) (summary_vector_store : VectorStore)
    (folder_path : string) (item : Z * string) : M unit :=
  let '(doc_id, filename) := item in
  let file_path := os_path_join folder_path filename in
  documents <- lift (partition E file_path) ;;
  for_each (process_element_txn conn summary_vector_store doc_id filename file_path)
    documents.

(** Lines 52-80. *)
Definition process_documents_txn (folder_path vector_db_path : string) : M unit :=
  conn <- connect_db None ;;
  create_table conn ;;
  summary_vector_store <- Chroma "summary_vectors" vector_db_path ;;
  entries <- lift (listdir E folder_path) ;;
  for_each (process_file_txn conn summary_vector_store folder_path) (enumerate 1 entries) ;;
  conn_close conn.

(** Lines 77-78 for one element. *)
Definition write_call_txn (conn : handle) (vs : VectorStore) (c : Call) : M unit :=
  add_document_txn E commit_fault conn (call_id c) (call_metadata c) ;;
  add_summary E (call_id c) (call_summary c) vs.

End ScriptTxn.

(** The rows behind a connection: those committed to its file and those
    pending in its open transaction. *)
Record Rows : Type := {
  committed : gmap Z string;
  pending : gmap Z string
}.

Section RowsTxn.
Context (E : Env) (commit_fault : gmap Z string → option exn).

(** The rows after one [add_document_txn]. *)
Definition write_row (r : Rows) (c : Call) : Rows :=
  if bool_decide (is_Some (committed r !! call_id c))
     || bool_decide (is_Some (pending r !! call_id c))
  then r
  else match insert_fault E (call_id c) (json_dumps E (call_metadata c)) with
       | Some _ => r
       | None =>
         let p := <[call_id c := json_dumps E (call_metadata c)]> (pending r) in
         match commit_fault p with
         | Some _ => {| committed := committed r; pending := p |}
         | None => {| committed := p ∪ committed r; pending := ∅ |}
         end
       end.

(** The record [add_document_txn] logs. *)
Definition row_record (r : Rows) (c : Call) : log_record :=
  if bool_decide (is_Some (committed r !! call_id c))
     || bool_decide (is_Some (pending r !! call_id c))
  then ErrorAddingDocument (call_id c) IntegrityError
  else match insert_fault E (call_id c) (json_dumps E (call_metadata c)) with
       | Some e => ErrorAddingDocument (call_id c) e
       | None =>
         match commit_fault (<[call_id c := json_dumps E (call_metadata c)]> (pending r)) with
         | Some e => ErrorAddingDocument (call_id c) e
         | None => DocumentAdded (call_id c)
         end
       end.

Definition rows_after (r : Rows) (cs : list Call) : Rows := foldl write_row r cs.

Fixpoint records_of (r : Rows) (cs : list Call) : list log_record :=
  match cs with
  | [] => []
  | c :: rest => row_record r c :: summary_record E c :: records_of (write_row r c) rest
  end.

End RowsTxn.

(** ** Vocabulary of the statements on ids and paths *)

(** The elements [partition] gives for a listed entry; none when it fails. *)
Definition elements_of (E : Env) (folder_path filename : string) : list Element :=
  match partition E (os_path_join folder_path filename) with
  | Ok docs => docs
  | Raise _ => []
  end.

(** The ids of the records a run logs when nothing stops it: for each
    listed entry in order, the entry at position [i] (from 0) gives, for
    each of its elements, the id [i + 1] twice: once in the record for the
    row and once in the record for the summary. *)
Definition ids_to_log (E : Env) (folder_path : string) (entries : list string) : list Z :=
  concat (imap (λ (i : nat) (filename : string),
                  flat_map (λ _ : Element, [(Z.of_nat i + 1)%Z; (Z.of_nat i + 1)%Z])
                    (elements_of E folder_path filename))
            entries).

(** The ids of the records a run logged. *)
Definition ids_logged (before after : State) : list Z :=
  omap record_doc_id (new_records before after).

(** The metadata of a Document Record as the specification words it, to
    compare with what lines 69-75 build: the listed name, the path of the
    file, the page number or 0, the number of images, and the images as
    position and path. *)
Definition metadata_as_specified (filename file_path : string) (doc : Element) : Metadata :=
  let imgs := match images doc with Some l => l | None => [] end in
  {| md_filename := filename;
     md_source := file_path;
     md_pagenumber := match page_number doc with Some n => n | None => 0%Z end;
     md_image_count := Z.of_nat (length imgs);
     md_images := imap (λ (i : nat) (img : Image), (i, path img)) imgs |}.

(** [E] with another [partition]. *)
Definition with_partition (E : Env) (partition' : string → result (list Element)) : Env :=
  {| listdir := listdir E;
     partition := partition';
     summary_chain_run := summary_chain_run E;
     json_dumps := json_dumps E;
     insert_fault := insert_fault E;
     add_documents_fault := add_documents_fault E;
     retrieval_chain_run := retrieval_chain_run E |}.


(** * Proofs *)

(** ** Records and the monad *)

Lemma State_eq (s1 s2 : State) :
  dbs s1 = dbs s2 → stores s1 = stores s2 → conns s1 = conns s2 → log s1 = log s2 →
  s1 = s2.
Proof. destruct s1, s2; simpl; intros; subst; reflexivity. Qed.

Lemma bind_ok {A B} (m : M A) (k : A → M B) s a s' :
  m s = (Ok a, s') → bind m k s = k a s'.
Proof. unfold bind. by intros ->. Qed.

Section Writes.
Context (E : Env).

Lemma get_open_ok conn c s :
  conns s !! conn = Some c → c_open c = true → get_open conn s = (Ok c, s).
Proof. unfold get_open. by intros -> ->. Qed.

Lemma conn_commit_ok conn c s :
  conns s !! conn = Some c → c_open c = true →
  conn_commit conn s =
    (Ok tt,
     set_conns (λ cs, <[conn := with_pending ∅ c]> cs)
       (set_dbs (λ d, match d !! c_path c with
                      | Some t => <[c_path c := c_pending c ∪ t]> d
                      | None => d
                      end) s)).
Proof. intros Hc Ho. unfold conn_commit, bind. by rewrite (get_open_ok _ _ _ Hc Ho). Qed.

(** [add_document] on an open connection with nothing pending, when the
    file has a table: one [insert_row], one log record, nothing else. *)
Lemma add_document_spec conn c t (call : Call) s :
  conns s !! conn = Some c → c_open c = true → c_pending c = ∅ →
  dbs s !! c_path c = Some t →
  add_document E conn (call_id call) (call_metadata call) s =
    (Ok tt,
     {| dbs := <[c_path c := insert_row E t call]> (dbs s);
        stores := stores s;
        conns := conns s;
        log := log s ++ [document_record E t call] |}).
Proof.
  intros Hc Ho Hp Ht.
  assert (Hlt : conn < length (conns s)) by (by eapply lookup_lt_Some).
  unfold add_document, try_except, conn_cursor, execute_insert, insert_row, document_record.
  unfold bind at 1 2 3. rewrite (get_open_ok _ _ _ Hc Ho). simpl.
  unfold bind at 1 2. rewrite (get_open_ok _ _ _ Hc Ho). simpl.
  rewrite Ht, Hp, lookup_empty. simpl. rewrite orb_false_r.
  destruct (bool_decide (is_Some (t !! call_id call))) eqn:Hin; simpl.
  { unfold logging, set_log; simpl. f_equal. apply State_eq; simpl; try done.
    by rewrite insert_id. }
  destruct (insert_fault E (call_id call) (json_dumps E (call_metadata call))) as [e|] eqn:Hf; simpl.
  { unfold logging, set_log; simpl. f_equal. apply State_eq; simpl; try done.
    by rewrite insert_id. }
  erewrite conn_commit_ok; [| simpl; by apply list_lookup_insert_eq | done ].
  unfold logging, set_log, set_conns, set_dbs; simpl. rewrite Ht.
  f_equal. apply State_eq; simpl; try done.
  - by rewrite <- insert_union_l, (left_id_L ∅ (∪)).
  - rewrite list_insert_insert_eq. apply list_insert_id.
    rewrite Hc. f_equal. destruct c; simpl in *. by subst.
Qed.

Lemma add_summary_spec vs idx (call : Call) s :
  stores s !! vs = Some idx →
  add_summary E (call_id call) (call_summary call) vs s =
    (Ok tt,
     {| dbs := dbs s;
        stores := <[vs := idx ++ index_adds E call]> (stores s);
        conns := conns s;
        log := log s ++ [summary_record E call] |}).
Proof.
  intros Hs.
  unfold add_summary, try_except, add_documents, bind, index_adds, summary_record, call_entry.
  simpl.
  destruct (add_documents_fault E _) as [e|]; simpl.
  - unfold logging, set_log; simpl. f_equal. apply State_eq; simpl; try done.
    by rewrite app_nil_r, insert_id.
  - unfold logging, set_log, set_stores; simpl. f_equal. apply State_eq; simpl; try done.
    by rewrite Hs.
Qed.

(** The writes of a run, one after the other. *)
Lemma write_calls_spec conn vs c cs : ∀ t idx s,
  conns s !! conn = Some c → c_open c = true → c_pending c = ∅ →
  dbs s !! c_path c = Some t →
  stores s !! vs = Some idx →
  for_each (write_call E conn vs) cs s =
    (Ok tt,
     {| dbs := <[c_path c := foldl (insert_row E) t cs]> (dbs s);
        stores := <[vs := idx ++ flat_map (index_adds E) cs]> (stores s);
        conns := conns s;
        log := log s ++ calls_log E t cs |}).
Proof.
  induction cs as [|call cs IH]; intros t idx s Hc Ho Hp Ht Hs; simpl.
  - unfold ret. f_equal. apply State_eq; simpl; try done.
    + by rewrite insert_id.
    + by rewrite app_nil_r, insert_id.
    + by rewrite app_nil_r.
  - unfold write_call at 1.
    unfold bind at 1 2. erewrite add_document_spec by done.
    erewrite add_summary_spec by done.
    erewrite IH; simpl; try done.
    + f_equal. apply State_eq; simpl; try done.
      * by rewrite insert_insert_eq.
      * by rewrite insert_insert_eq, <- app_assoc.
      * by rewrite <- !app_assoc.
    + by rewrite lookup_insert_eq.
    + by rewrite lookup_insert_eq.
Qed.

Lemma for_each_app {A} (body : A → M unit) l1 l2 s :
  for_each body (l1 ++ l2) s =
    match for_each body l1 s with
    | (Ok _, s1) => for_each body l2 s1
    | (Raise e, s1) => (Raise e, s1)
    end.
Proof.
  revert s. induction l1 as [|x l1 IH]; intros s; simpl; [done|].
  unfold bind. destruct (body x s) as [[[]|e] s1]; [apply IH | done].
Qed.

Lemma elements_run_plan conn vs doc_id filename file_path docs s :
  for_each (process_element E conn vs doc_id filename file_path) docs s =
    then_outcome (element_calls E doc_id filename file_path docs).2
      (for_each (write_call E conn vs)
         (element_calls E doc_id filename file_path docs).1 s).
Proof.
  revert s. induction docs as [|doc docs IH]; intros s; simpl; [done|].
  unfold process_element at 1. unfold bind at 1 2, lift.
  destruct (summary_chain_run E (text doc)) as [summary|e]; simpl; [|done].
  destruct (element_calls E doc_id filename file_path docs) as [cs r] eqn:Hcs; simpl in *.
  unfold write_call at 1. unfold bind. simpl.
  destruct (add_document E conn doc_id _ s) as [[[]|e] s1]; simpl; [|done].
  destruct (add_summary E doc_id summary vs s1) as [[[]|e] s2]; simpl; [|done].
  apply IH.
Qed.

Lemma files_run_plan conn vs folder_path items s :
  for_each (process_file E conn vs folder_path) items s =
    then_outcome (file_calls E folder_path items).2
      (for_each (write_call E conn vs) (file_calls E folder_path items).1 s).
Proof.
  revert s. induction items as [|[doc_id filename] items IH]; intros s; simpl; [done|].
  unfold bind at 1. unfold bind at 1, lift.
  destruct (partition E (os_path_join folder_path filename)) as [docs|e]; simpl; [|done].
  rewrite elements_run_plan.
  destruct (element_calls E doc_id filename _ docs) as [cs [e|]]; simpl.
  - by destruct (for_each (write_call E conn vs) cs s) as [[[]|e'] s1].
  - destruct (file_calls E folder_path items) as [cs' r] eqn:Hcs'; simpl in *.
    rewrite for_each_app.
    destruct (for_each (write_call E conn vs) cs s) as [[[]|e'] s1]; simpl; [|done].
    apply IH.
Qed.

(** ** The run as a whole *)

Lemma connect_db_spec s :
  connect_db None s =
    (Ok (length (conns s)), set_conns (λ cs, cs ++ [fresh_conn the_db]) s).
Proof. reflexivity. Qed.

Lemma create_table_spec conn c s :
  conns s !! conn = Some c → c_open c = true → c_pending c = ∅ →
  create_table conn s =
    (Ok tt, set_dbs (λ d, <[c_path c := default ∅ (d !! c_path c)]> d) s).
Proof.
  intros Hc Ho Hp. unfold create_table, conn_cursor, execute_create_table.
  unfold bind at 1 2. rewrite (get_open_ok _ _ _ Hc Ho). simpl.
  unfold bind at 1 2. rewrite (get_open_ok _ _ _ Hc Ho). simpl.
  erewrite conn_commit_ok; [| exact Hc | done].
  f_equal. unfold set_conns, set_dbs; simpl. apply State_eq; simpl; try done.
  - rewrite Hp. destruct (dbs s !! c_path c) as [t|] eqn:Ht; simpl.
    + rewrite Ht. by rewrite (left_id_L ∅ (∪)).
    + rewrite lookup_insert_eq, insert_insert_eq. by rewrite (left_id_L ∅ (∪)).
  - apply list_insert_id. rewrite Hc. f_equal. destruct c; simpl in *; by subst.
Qed.

Lemma Chroma_spec collection_name persist_directory s :
  Chroma collection_name persist_directory s =
    (Ok (persist_directory, collection_name),
     set_stores (λ m, <[(persist_directory, collection_name) :=
                          default [] (m !! (persist_directory, collection_name))]> m) s).
Proof.
  unfold Chroma, set_stores. f_equal. apply State_eq; simpl; try done.
  destruct (stores s !! _) eqn:Hs; simpl; [by rewrite insert_id | done].
Qed.

(** [process_documents] opens the next connection on [documents.db],
    performs the writes of [plan] against the table and the collection,
    and closes the connection when, and only when, no exception escapes. *)
Lemma process_documents_runs_plan folder_path vector_db_path s :
  process_documents E folder_path vector_db_path s =
    (outcome (plan E folder_path).2,
     {| dbs := <[the_db := foldl (insert_row E) (default ∅ (dbs s !! the_db))
                             (plan E folder_path).1]> (dbs s);
        stores := <[the_collection vector_db_path :=
                      summary_index s (the_collection vector_db_path)
                      ++ flat_map (index_adds E) (plan E folder_path).1]> (stores s);
        conns := conns s ++ [ {| c_path := the_db; c_pending := ∅;
                                 c_open := negb (is_ok (outcome (plan E folder_path).2)) |} ];
        log := log s ++ calls_log E (default ∅ (dbs s !! the_db)) (plan E folder_path).1 |}).
Proof.
  unfold process_documents.
  erewrite bind_ok by apply connect_db_spec.
  set (h := length (conns s)).
  assert (Hh : ∀ s', conns s' = conns s ++ [fresh_conn the_db] →
                     conns s' !! h = Some (fresh_conn the_db)).
  { intros s' ->. by apply list_lookup_middle. }
  erewrite bind_ok; last by (eapply create_table_spec; [by apply Hh | done | done]).
  erewrite bind_ok by apply Chroma_spec.
  unfold plan. unfold bind at 1, lift.
  destruct (listdir E folder_path) as [entries|e]; simpl.
  2:{ f_equal. apply State_eq; simpl; try done; by rewrite app_nil_r. }
  unfold bind at 1. rewrite files_run_plan.
  destruct (file_calls E folder_path (enumerate 1 entries)) as [cs r]; simpl.
  erewrite write_calls_spec; cycle 1.
  - apply Hh. reflexivity.
  - done.
  - done.
  - simpl. apply lookup_insert_eq.
  - simpl. apply lookup_insert_eq.
  - simpl. destruct r as [e|]; simpl.
    + f_equal. apply State_eq; simpl; try done; by rewrite insert_insert_eq.
    + unfold conn_close; simpl.
      replace ((conns s ++ [fresh_conn the_db]) !! h) with (Some (fresh_conn the_db))
        by (symmetry; by apply list_lookup_middle).
      f_equal.
      apply State_eq; simpl; try done; try by rewrite insert_insert_eq.
      unfold h. by rewrite insert_app_r_alt, Nat.sub_diag by lia.
Qed.
End Writes.

(** ** The table under a sequence of inserts *)

Section Tables.
Context (E : Env).

Lemma insert_row_present t c v :
  t !! call_id c = Some v → insert_row E t c = t.
Proof.
  intros H. unfold insert_row. by rewrite bool_decide_eq_true_2 by (by rewrite H).
Qed.

(** A row, once there, is never replaced. *)
Lemma insert_row_keeps t c id v :
  t !! id = Some v → insert_row E t c !! id = Some v.
Proof.
  intros H. unfold insert_row. case_bool_decide as Hin; [done|].
  destruct (insert_fault E _ _); [done|].
  rewrite lookup_insert_ne; [done|]. intros <-. apply Hin. by rewrite H.
Qed.

Lemma insert_row_other t c id :
  id ≠ call_id c → insert_row E t c !! id = t !! id.
Proof.
  intros Hne. unfold insert_row. case_bool_decide; [done|].
  destruct (insert_fault E _ _); [done|]. by rewrite lookup_insert_ne.
Qed.

(** After an insert, the same insert changes nothing. *)
Lemma insert_row_settled t c : insert_row E (insert_row E t c) c = insert_row E t c.
Proof.
  destruct (t !! call_id c) as [v|] eqn:Hv.
  - by rewrite !(insert_row_present t c v).
  - destruct (insert_fault E (call_id c) (json_dumps E (call_metadata c))) eqn:Hf.
    + assert (Heq : insert_row E t c = t).
      { unfold insert_row. rewrite Hf. by case_bool_decide. }
      by rewrite !Heq.
    + eapply insert_row_present. unfold insert_row.
      rewrite bool_decide_eq_false_2 by (rewrite Hv; by intros [? ?]).
      rewrite Hf. apply lookup_insert_eq.
Qed.

Lemma foldl_insert_row_keeps cs : ∀ t id v,
  t !! id = Some v → foldl (insert_row E) t cs !! id = Some v.
Proof.
  induction cs as [|c cs IH]; intros t id v H; simpl; [done|].
  apply IH. by apply insert_row_keeps.
Qed.

Lemma foldl_insert_row_other cs : ∀ t id,
  Forall (λ c, call_id c ≠ id) cs → foldl (insert_row E) t cs !! id = t !! id.
Proof.
  induction cs as [|c cs IH]; intros t id H; simpl; [done|].
  inversion H as [|? ? Hc Hcs]; subst.
  rewrite IH by done. by apply insert_row_other.
Qed.

(** An insert that changes nothing now changes nothing later. *)
Lemma insert_row_settled_mono t c c' :
  insert_row E t c = t → insert_row E (insert_row E t c') c = insert_row E t c'.
Proof.
  unfold insert_row at 1. case_bool_decide as Hin.
  - intros _. destruct Hin as [v Hv].
    eapply insert_row_present. by apply insert_row_keeps.
  - destruct (insert_fault E (call_id c) _) eqn:Hf.
    + intros _. unfold insert_row at 1. rewrite Hf. by case_bool_decide.
    + intros Heq. exfalso. apply Hin. rewrite <- Heq. rewrite lookup_insert_eq. by eexists.
Qed.

Lemma foldl_insert_row_settled cs : ∀ t c,
  insert_row E t c = t →
  insert_row E (foldl (insert_row E) t cs) c = foldl (insert_row E) t cs.
Proof.
  induction cs as [|c' cs IH]; intros t c H; simpl; [done|].
  apply IH. by apply insert_row_settled_mono.
Qed.

Lemma foldl_insert_row_fixed cs : ∀ t,
  Forall (λ c, insert_row E t c = t) cs → foldl (insert_row E) t cs = t.
Proof.
  induction cs as [|c cs IH]; intros t H; simpl; [done|].
  inversion H as [|? ? Hc Hcs]; subst. rewrite Hc. by apply IH.
Qed.

Lemma foldl_insert_row_all_settled cs : ∀ t,
  Forall (λ c, insert_row E (foldl (insert_row E) t cs) c = foldl (insert_row E) t cs) cs.
Proof.
  induction cs as [|c cs IH]; intros t; simpl; constructor.
  - apply foldl_insert_row_settled, insert_row_settled.
  - apply IH.
Qed.

(** Replaying the same inserts on their own result changes nothing:
    ids present stay as they are, and an insert that the engine failed
    fails again. *)
Lemma foldl_insert_row_idem cs t :
  foldl (insert_row E) (foldl (insert_row E) t cs) cs = foldl (insert_row E) t cs.
Proof. apply foldl_insert_row_fixed, foldl_insert_row_all_settled. Qed.

Lemma index_adds_ids cs :
  Forall (λ e, e_id e ∈ call_id <$> cs) (flat_map (index_adds E) cs).
Proof.
  induction cs as [|c cs IH]; simpl; [constructor|].
  apply Forall_app. split.
  - unfold index_adds. destruct (add_documents_fault E _); constructor; [|constructor].
    by left.
  - eapply Forall_impl; [exact IH|]. intros e He. simpl. by right.
Qed.

End Tables.

(** ** [enumerate] *)

Section Enumerate.
Context {A : Type}.
Implicit Types xs : list A.

Lemma enumerate_snd xs : ∀ start, (enumerate start xs).*2 = xs.
Proof. induction xs as [|x xs IH]; intros start; simpl; [done|]. by rewrite IH. Qed.

Lemma enumerate_fst xs : ∀ start,
  (enumerate start xs).*1 = seqZ start (Z.of_nat (length xs)).
Proof.
  induction xs as [|x xs IH]; intros start; simpl length; [done|].
  rewrite seqZ_cons by lia. simpl. rewrite IH. do 2 f_equal; lia.
Qed.

Lemma enumerate_lookup xs : ∀ start (i : nat),
  enumerate start xs !! i = (λ x, ((start + Z.of_nat i)%Z, x)) <$> xs !! i.
Proof.
  induction xs as [|x xs IH]; intros start i; [done|].
  destruct i as [|i]; simpl.
  - do 2 f_equal. lia.
  - rewrite IH. destruct (xs !! i); simpl; [|done]. do 2 f_equal. lia.
Qed.

Lemma enumerate_app xs ys : ∀ start,
  enumerate start (xs ++ ys) =
    enumerate start xs ++ enumerate (start + Z.of_nat (length xs)) ys.
Proof.
  induction xs as [|x xs IH]; intros start; simpl.
  - f_equal. lia.
  - rewrite IH. do 3 f_equal. lia.
Qed.

Lemma elem_of_enumerate xs start id x :
  (id, x) ∈ enumerate start xs ↔ ∃ i : nat, xs !! i = Some x ∧ id = (start + Z.of_nat i)%Z.
Proof.
  rewrite list_elem_of_lookup. split.
  - intros [i Hi]. rewrite enumerate_lookup in Hi.
    destruct (xs !! i) as [y|] eqn:Hy; simplify_eq/=. eauto.
  - intros (i & Hi & ->). exists i. by rewrite enumerate_lookup, Hi.
Qed.

Lemma enumerate_ids_NoDup xs start : NoDup (enumerate start xs).*1.
Proof. rewrite enumerate_fst. apply NoDup_seqZ. Qed.

End Enumerate.

(** ** The plan *)

Section PlanFacts.
Context (E : Env).

Lemma element_calls_of folder_path doc_id filename docs0 docs :
  partition E (os_path_join folder_path filename) = Ok docs0 →
  docs ⊆ docs0 →
  Forall (call_of E folder_path doc_id filename)
    (element_calls E doc_id filename (os_path_join folder_path filename) docs).1.
Proof.
  intros Hp. induction docs as [|doc docs IH]; intros Hsub; simpl; [constructor|].
  destruct (summary_chain_run E (text doc)) as [summary|e] eqn:Hs; simpl; [|constructor].
  destruct (element_calls E doc_id filename _ docs) as [cs r] eqn:Hcs; simpl in *.
  constructor.
  - exists docs0, doc. simpl. repeat split; try done. apply Hsub. by left.
  - apply IH. set_solver.
Qed.

Lemma file_calls_of folder_path items :
  Forall (λ c, ∃ doc_id filename,
               (doc_id, filename) ∈ items ∧ call_of E folder_path doc_id filename c)
    (file_calls E folder_path items).1.
Proof.
  induction items as [|[doc_id filename] items IH]; simpl; [constructor|].
  destruct (partition E (os_path_join folder_path filename)) as [docs|e] eqn:Hp;
    simpl; [|constructor].
  pose proof (element_calls_of folder_path doc_id filename docs docs Hp
                (reflexivity _)) as Hel.
  destruct (element_calls E doc_id filename _ docs) as [cs [e|]] eqn:Hcs; simpl in *.
  - eapply Forall_impl; [exact Hel|]. intros c Hc. exists doc_id, filename.
    split; [by left | done].
  - destruct (file_calls E folder_path items) as [cs' r] eqn:Hcs'; simpl in *.
    apply Forall_app. split.
    + eapply Forall_impl; [exact Hel|]. intros c Hc. exists doc_id, filename.
      split; [by left | done].
    + eapply Forall_impl; [exact IH|]. intros c (i & f & Hin & Hc).
      exists i, f. split; [by right | done].
Qed.

(** Every write of a run is for an element of a listed entry, under the
    1-based position of that entry. *)
Lemma plan_calls_origin folder_path entries :
  listdir E folder_path = Ok entries →
  Forall (call_origin E folder_path entries) (plan E folder_path).1.
Proof.
  intros Hl. unfold plan. rewrite Hl.
  eapply Forall_impl; [apply file_calls_of|].
  intros c (doc_id & filename & Hin & Hc).
  apply elem_of_enumerate in Hin as (i & Hi & ->).
  exists i, filename. split; [done|]. by replace (Z.of_nat i + 1)%Z with (1 + Z.of_nat i)%Z by lia.
Qed.

End PlanFacts.

(** ** Facts about whole runs *)

Section Runs.
Context (E : Env).

Lemma element_calls_ok doc_id filename file_path docs :
  forallb (λ doc, is_ok (summary_chain_run E (text doc))) docs = true →
  (element_calls E doc_id filename file_path docs).2 = None.
Proof.
  induction docs as [|doc docs IH]; simpl; [done|].
  intros [H1 H2]%andb_true_iff.
  destruct (summary_chain_run E (text doc)); [|done].
  destruct (element_calls E doc_id filename file_path docs); simpl in *. by apply IH.
Qed.

Lemma file_calls_ok folder_path items :
  forallb (file_ok E folder_path) items.*2 = true →
  (file_calls E folder_path items).2 = None.
Proof.
  induction items as [|[doc_id filename] items IH]; simpl; [done|].
  intros [H1 H2]%andb_true_iff. unfold file_ok in H1.
  destruct (partition E (os_path_join folder_path filename)) as [docs|]; [|done].
  pose proof (element_calls_ok doc_id filename (os_path_join folder_path filename) docs H1).
  destruct (element_calls E doc_id filename _ docs) as [cs r]; simpl in *; subst.
  destruct (file_calls E folder_path items); simpl in *. by apply IH.
Qed.

Lemma file_calls_app folder_path items1 items2 :
  file_calls E folder_path (items1 ++ items2) =
    match file_calls E folder_path items1 with
    | (cs, Some e) => (cs, Some e)
    | (cs, None) => ((cs ++ (file_calls E folder_path items2).1),
                     (file_calls E folder_path items2).2)
    end.
Proof.
  induction items1 as [|[doc_id filename] items1 IH]; simpl.
  - by destruct (file_calls E folder_path items2).
  - destruct (partition E (os_path_join folder_path filename)) as [docs|]; [|done].
    destruct (element_calls E doc_id filename _ docs) as [cs [e|]]; [done|].
    rewrite IH.
    destruct (file_calls E folder_path items1) as [cs1 [e|]]; [done|].
    simpl. by rewrite app_assoc.
Qed.

Lemma file_calls_ids folder_path items :
  Forall (λ c, call_id c ∈ items.*1) (file_calls E folder_path items).1.
Proof.
  eapply Forall_impl; [apply file_calls_of|].
  intros c (doc_id & filename & Hin & (docs & doc & _ & _ & _ & Hid & _)). subst.
  apply list_elem_of_fmap. by exists (call_id c, filename).
Qed.

Lemma filter_none {A} (P : A → Prop) `{!∀ x, Decision (P x)} (l : list A) :
  Forall (λ x, ¬ P x) l → filter P l = [].
Proof.
  induction 1 as [|x l Hx Hl IH]; [done|]. by rewrite filter_cons_False.
Qed.

(** A run leaves alone every id that none of its writes names. *)
Lemma run_other_ids folder_path vector_db_path s id :
  Forall (λ c, call_id c ≠ id) (plan E folder_path).1 →
  let s' := (process_documents E folder_path vector_db_path s).2 in
  record_store_get s' the_db id = record_store_get s the_db id
  ∧ filter (λ en, e_id en = id) (summary_index s' (the_collection vector_db_path))
    = filter (λ en, e_id en = id) (summary_index s (the_collection vector_db_path)).
Proof.
  intros Hids. rewrite process_documents_runs_plan. simpl. split.
  - unfold record_store_get; simpl. rewrite lookup_insert_eq; simpl.
    rewrite foldl_insert_row_other by done.
    by destruct (dbs s !! the_db).
  - unfold summary_index at 1; simpl. rewrite lookup_insert_eq; simpl.
    rewrite filter_app.
    rewrite (filter_none _ (flat_map (index_adds E) (plan E folder_path).1));
      [by rewrite app_nil_r|].
    eapply Forall_impl; [apply index_adds_ids|]. simpl.
    intros en Hin Heq. apply list_elem_of_fmap in Hin as (c & Hen & Hc).
    rewrite Forall_forall in Hids. apply (Hids c Hc). congruence.
Qed.


(** The retrieval function, in one equation. *)
Lemma run_retrieval_chain_spec vector_db_path query s :
  run_retrieval_chain E vector_db_path query s =
    let vs := the_collection vector_db_path in
    let stores' := <[vs := summary_index s vs]> (stores s) in
    match retrieval_chain_run E (dbs s !! the_db) (summary_index s vs) query with
    | Ok answer =>
      (Ok tt,
       {| dbs := dbs s; stores := stores';
          conns := conns s ++ [close_conn (fresh_conn the_db)];
          log := log s ++ [QueryResult answer] |})
    | Raise e =>
      (Raise e,
       {| dbs := dbs s; stores := stores';
          conns := conns s ++ [fresh_conn the_db];
          log := log s |})
    end.
Proof.
  unfold run_retrieval_chain.
  erewrite bind_ok by apply connect_db_spec.
  erewrite bind_ok by apply Chroma_spec.
  unfold bind at 1. unfold chain_run. simpl.
  rewrite list_lookup_middle by done. simpl.
  rewrite lookup_insert_eq. simpl.
  fold the_db. fold (the_collection vector_db_path).
  fold (summary_index s (the_collection vector_db_path)).
  destruct (retrieval_chain_run E _ _ query) as [answer|e]; simpl.
  - unfold bind, logging, conn_close; simpl.
    rewrite list_lookup_middle by done. f_equal.
    apply State_eq; simpl; try done.
    by rewrite insert_app_r_alt, Nat.sub_diag by lia.
  - done.
Qed.

End Runs.

(** ** Where rows and entries come from *)

Section Origins.
Context (E : Env).

Lemma insert_row_origin t c id v :
  insert_row E t c !! id = Some v →
  t !! id = Some v ∨ (id = call_id c ∧ v = json_dumps E (call_metadata c)).
Proof.
  unfold insert_row. case_bool_decide; [by left|].
  destruct (insert_fault E _ _); [by left|].
  destruct (decide (call_id c = id)) as [<-|Hne].
  - rewrite lookup_insert_eq. intros [= <-]. by right.
  - rewrite lookup_insert_ne by done. by left.
Qed.

Lemma foldl_insert_row_origin cs : ∀ t id v,
  foldl (insert_row E) t cs !! id = Some v →
  t !! id = Some v
  ∨ ∃ c, c ∈ cs ∧ call_id c = id ∧ v = json_dumps E (call_metadata c).
Proof.
  induction cs as [|c cs IH]; intros t id v H; simpl in H; [by left|].
  destruct (IH _ _ _ H) as [Hrow|(c' & Hin & Hid & Hv)].
  - destruct (insert_row_origin _ _ _ _ Hrow) as [?|[-> ->]]; [by left|].
    right. exists c. split; [by left | done].
  - right. exists c'. split; [by right | done].
Qed.

Lemma index_adds_origin cs en :
  en ∈ flat_map (index_adds E) cs →
  ∃ c, c ∈ cs ∧ en = call_entry c ∧ add_documents_fault E (call_entry c) = None.
Proof.
  induction cs as [|c cs IH]; simpl; [by intros ?%not_elem_of_nil|].
  rewrite elem_of_app. intros [Hhere|Hrest].
  - unfold index_adds in Hhere.
    destruct (add_documents_fault E (call_entry c)) eqn:Hf.
    + by apply not_elem_of_nil in Hhere.
    + apply list_elem_of_singleton in Hhere as ->. exists c. split; [by left | done].
  - destruct (IH Hrest) as (c' & Hin & Hc'). exists c'. split; [by right | done].
Qed.



(** ** The ids in the log *)

Lemma calls_log_ids_exact cs : ∀ t,
  omap record_doc_id (calls_log E t cs) = flat_map (λ c, [call_id c; call_id c]) cs.
Proof.
  induction cs as [|c cs IH]; intros t; [done|].
  cbn [calls_log flat_map]. rewrite <- (IH (insert_row E t c)).
  assert (Hd : record_doc_id (document_record E t c) = Some (call_id c)).
  { unfold document_record. case_bool_decide; [done|]. by destruct (insert_fault E _ _). }
  assert (Hs : record_doc_id (summary_record E c) = Some (call_id c)).
  { unfold summary_record. by destruct (add_documents_fault E _). }
  cbn [omap list_omap]. by rewrite Hd, Hs.
Qed.

Lemma element_calls_ids doc_id filename file_path docs :
  flat_map (λ c, [call_id c; call_id c]) (element_calls E doc_id filename file_path docs).1
    `prefix_of` flat_map (λ _ : Element, [doc_id; doc_id]) docs
  ∧ ((element_calls E doc_id filename file_path docs).2 = None →
     flat_map (λ c, [call_id c; call_id c]) (element_calls E doc_id filename file_path docs).1
     = flat_map (λ _ : Element, [doc_id; doc_id]) docs).
Proof.
  induction docs as [|doc docs [IHp IHe]]; simpl; [split; [apply prefix_nil | done]|].
  destruct (summary_chain_run E (text doc)); simpl.
  - destruct (element_calls E doc_id filename file_path docs) as [cs r]; simpl in *.
    split.
    + by apply (prefix_app [doc_id; doc_id]).
    + intros Hr. by rewrite (IHe Hr).
  - split; [apply prefix_nil | done].
Qed.

Lemma file_calls_ids_logged folder_path items :
  let expected :=
    flat_map (λ item : Z * string,
                flat_map (λ _ : Element, [item.1; item.1])
                  (elements_of E folder_path item.2)) items in
  flat_map (λ c, [call_id c; call_id c]) (file_calls E folder_path items).1
    `prefix_of` expected
  ∧ ((file_calls E folder_path items).2 = None →
     flat_map (λ c, [call_id c; call_id c]) (file_calls E folder_path items).1 = expected).
Proof.
  cbv zeta. induction items as [|[doc_id filename] items [IHp IHe]]; simpl;
    [split; [apply prefix_nil | done]|].
  unfold elements_of at 1 3. simpl.
  destruct (partition E (os_path_join folder_path filename)) as [docs|] eqn:Hp; simpl;
    [|split; [apply prefix_nil | done]].
  destruct (element_calls_ids doc_id filename (os_path_join folder_path filename) docs)
    as [Hpre Heq].
  destruct (element_calls E doc_id filename _ docs) as [cs [e|]]; simpl in *.
  - split; [by apply prefix_app_r | done].
  - destruct (file_calls E folder_path items) as [cs' r]; simpl in *.
    rewrite flat_map_app, (Heq eq_refl). split.
    + by apply prefix_app.
    + intros Hr. by rewrite (IHe Hr).
Qed.

Lemma flat_map_enumerate {A B} (f : Z → A → list B) (xs : list A) : ∀ start,
  flat_map (λ item : Z * A, f item.1 item.2) (enumerate start xs)
  = concat (imap (λ (i : nat) x, f (start + Z.of_nat i)%Z x) xs).
Proof.
  induction xs as [|x xs IH]; intros start; [done|].
  cbn [enumerate flat_map imap concat fst snd]. rewrite IH. f_equal.
  - by rewrite Z.add_0_r.
  - f_equal. apply imap_ext. intros i y _. simpl. f_equal. lia.
Qed.

Lemma ids_to_log_enumerate folder_path entries :
  ids_to_log E folder_path entries
  = flat_map (λ item : Z * string,
                flat_map (λ _ : Element, [item.1; item.1])
                  (elements_of E folder_path item.2)) (enumerate 1 entries).
Proof.
  unfold ids_to_log.
  rewrite (flat_map_enumerate
             (λ id filename, flat_map (λ _ : Element, [id; id])
                               (elements_of E folder_path filename))).
  f_equal. apply imap_ext. intros i filename _. simpl.
  by replace (1 + Z.of_nat i)%Z with (Z.of_nat i + 1)%Z by lia.
Qed.

(** The ids a run logs: a prefix of what it logs when nothing stops it,
    and all of it when every entry partitions and summarizes. *)
Lemma run_ids_logged folder_path vector_db_path entries s :
  listdir E folder_path = Ok entries →
  ids_logged s (process_documents E folder_path vector_db_path s).2
    `prefix_of` ids_to_log E folder_path entries
  ∧ (forallb (file_ok E folder_path) entries = true →
     ids_logged s (process_documents E folder_path vector_db_path s).2
     = ids_to_log E folder_path entries).
Proof.
  intros Hl. rewrite process_documents_runs_plan, ids_to_log_enumerate.
  unfold ids_logged, new_records. cbn [fst snd log].
  rewrite drop_app_length, calls_log_ids_exact.
  unfold plan. rewrite Hl.
  destruct (file_calls_ids_logged folder_path (enumerate 1 entries)) as [Hpre Heq].
  split; [exact Hpre|].
  intros Hok. apply Heq.
  pose proof (file_calls_ok E folder_path (enumerate 1 entries)) as H.
  rewrite enumerate_snd in H. by apply H.
Qed.

(** When every listed entry has an element, the ids to log are those of
    all positions. *)
Lemma ids_to_log_all folder_path entries :
  Forall (λ filename, elements_of E folder_path filename ≠ []) entries →
  (list_to_set (ids_to_log E folder_path entries) : gset Z)
  = list_to_set (seqZ 1 (Z.of_nat (length entries))).
Proof.
  intros Hne. apply set_eq. intros id.
  rewrite !elem_of_list_to_set, elem_of_seqZ. unfold ids_to_log.
  rewrite list_elem_of_In, in_concat. split.
  - intros (l & Hl & Hid).
    apply list_elem_of_In, elem_of_lookup_imap in Hl as (i & filename & -> & Hi).
    apply in_flat_map in Hid as (doc & _ & Hid).
    apply lookup_lt_Some in Hi.
    assert (id = (Z.of_nat i + 1)%Z) as ->.
    { by destruct Hid as [<-|[<-|[]]]. }
    lia.
  - intros Hid.
    destruct (lookup_lt_is_Some_2 entries (Z.to_nat (id - 1))) as [filename Hi]; [lia|].
    eexists. split; [apply list_elem_of_In, elem_of_lookup_imap; by eexists _, _|].
    rewrite Forall_forall in Hne.
    specialize (Hne filename (list_elem_of_lookup_2 _ _ _ Hi)).
    destruct (elements_of E folder_path filename) as [|doc docs]; [done|].
    simpl. left. lia.
Qed.

(** ** Where a failure of [partition] or of the summary chain stops a run *)




(** ** The first element of an entry *)

(** When the entries before [filename] partition and summarize and the
    first element of [filename] summarizes, the writes of the run are those
    for the entries before it, then the write for that element, then
    others. *)
Lemma plan_first_write folder_path pre filename post doc docs summary :
  listdir E folder_path = Ok (pre ++ filename :: post) →
  forallb (file_ok E folder_path) pre = true →
  partition E (os_path_join folder_path filename) = Ok (doc :: docs) →
  summary_chain_run E (text doc) = Ok summary →
  ∃ rest,
    (plan E folder_path).1
    = (file_calls E folder_path (enumerate 1 pre)).1
      ++ {| call_id := Z.of_nat (length pre) + 1;
            call_metadata := build_metadata filename (os_path_join folder_path filename) doc;
            call_summary := summary |} :: rest.
Proof.
  intros Hl Hpre Hp Hs. unfold plan. rewrite Hl, enumerate_app, file_calls_app.
  pose proof (file_calls_ok E folder_path (enumerate 1 pre)) as Hok.
  rewrite enumerate_snd in Hok. specialize (Hok Hpre).
  destruct (file_calls E folder_path (enumerate 1 pre)) as [cs r]; simpl in *; subst.
  rewrite Hp. simpl. rewrite Hs.
  replace (1 + Z.of_nat (length pre))%Z with (Z.of_nat (length pre) + 1)%Z by lia.
  destruct (element_calls E _ filename _ docs) as [cs1 [e|]]; simpl; [by eexists|].
  destruct (file_calls E folder_path _) as [cs2 r2]; simpl. by eexists.
Qed.

Lemma run_first_element_row folder_path vector_db_path pre filename post doc docs summary s :
  listdir E folder_path = Ok (pre ++ filename :: post) →
  forallb (file_ok E folder_path) pre = true →
  partition E (os_path_join folder_path filename) = Ok (doc :: docs) →
  summary_chain_run E (text doc) = Ok summary →
  record_store_get s the_db (Z.of_nat (length pre) + 1) = None →
  insert_fault E (Z.of_nat (length pre) + 1)
    (json_dumps E (build_metadata filename (os_path_join folder_path filename) doc)) = None →
  record_store_get (process_documents E folder_path vector_db_path s).2 the_db
    (Z.of_nat (length pre) + 1)
  = Some (json_dumps E (build_metadata filename (os_path_join folder_path filename) doc)).
Proof.
  intros Hl Hpre Hp Hs Hfree Hf.
  destruct (plan_first_write folder_path pre filename post doc docs summary Hl Hpre Hp Hs)
    as [rest Hplan].
  rewrite process_documents_runs_plan, Hplan.
  unfold record_store_get in *. cbn [fst snd dbs].
  rewrite lookup_insert_eq. cbn [mbind option_bind].
  rewrite foldl_app. cbn [foldl].
  apply foldl_insert_row_keeps.
  set (t1 := foldl (insert_row E) (default ∅ (dbs s !! the_db))
               (file_calls E folder_path (enumerate 1 pre)).1).
  assert (Ht1 : t1 !! (Z.of_nat (length pre) + 1)%Z = None).
  { unfold t1. rewrite foldl_insert_row_other.
    - destruct (dbs s !! the_db); simpl in *; [done | apply lookup_empty].
    - eapply Forall_impl; [apply file_calls_ids|]. simpl.
      intros c Hin Heq. rewrite enumerate_fst in Hin.
      apply elem_of_seqZ in Hin. lia. }
  unfold insert_row. cbn [call_id call_metadata].
  rewrite bool_decide_eq_false_2 by (rewrite Ht1; by intros [? ?]).
  rewrite Hf. apply lookup_insert_eq.
Qed.

Lemma run_first_element_entry folder_path vector_db_path pre filename post doc docs summary s :
  listdir E folder_path = Ok (pre ++ filename :: post) →
  forallb (file_ok E folder_path) pre = true →
  partition E (os_path_join folder_path filename) = Ok (doc :: docs) →
  summary_chain_run E (text doc) = Ok summary →
  add_documents_fault E {| e_text := summary; e_id := Z.of_nat (length pre) + 1 |} = None →
  {| e_text := summary; e_id := Z.of_nat (length pre) + 1 |}
    ∈ summary_index (process_documents E folder_path vector_db_path s).2
        (the_collection vector_db_path).
Proof.
  intros Hl Hpre Hp Hs Hf.
  destruct (plan_first_write folder_path pre filename post doc docs summary Hl Hpre Hp Hs)
    as [rest Hplan].
  rewrite process_documents_runs_plan, Hplan.
  unfold summary_index at 1. cbn [fst snd stores].
  rewrite lookup_insert_eq. cbn [from_option]. unfold id.
  rewrite flat_map_app. cbn [flat_map].
  unfold index_adds at 2, call_entry. cbn [call_id call_summary]. rewrite Hf.
  rewrite !elem_of_app. right. right. left. by left.
Qed.

Lemma for_each_one_state {A} (body : A → M unit) (x : A) s :
  (for_each body [x] s).2 = (body x s).2.
Proof. simpl. unfold bind, ret. by destruct (body x s) as [[[]|e] s1]. Qed.

(** The pairs of the dict comprehension of line 74. *)
Lemma images_pairs (imgs : list Image) :
  (λ p : nat * Image, (p.1, path p.2)) <$> enumerate0 imgs
  = imap (λ i img, (i, path img)) imgs.
Proof.
  apply list_eq. intros i. unfold enumerate0.
  rewrite list_lookup_fmap, !list_lookup_imap. by destruct (imgs !! i).
Qed.

(** Lines 69-75 build the metadata the specification describes. *)
Lemma build_metadata_as_specified filename file_path doc :
  build_metadata filename file_path doc = metadata_as_specified filename file_path doc.
Proof.
  unfold build_metadata, metadata_as_specified.
  destruct doc as [content [n|] [imgs|]]; simpl; f_equal; apply images_pairs.
Qed.

End Origins.

(** ** [add_document] over a commit that can fail *)

Section Transactions.
Context (E : Env).

Lemma get_open_cases conn s :
  (∃ c, conns s !! conn = Some c ∧ c_open c = true ∧ get_open conn s = (Ok c, s))
  ∨ get_open conn s = (Raise ProgrammingError, s).
Proof.
  unfold get_open. destruct (conns s !! conn) as [c|]; [|by right].
  destruct (c_open c) eqn:Ho; [|by right]. left. by exists c.
Qed.

Lemma conn_commit_txn_no_fault conn s :
  conn_commit_txn (λ _, None) conn s = conn_commit conn s.
Proof.
  unfold conn_commit_txn, bind at 1.
  destruct (get_open_cases conn s) as [(c & Hc & Ho & ->)| Hg].
  - done.
  - rewrite Hg. unfold conn_commit, bind. by rewrite Hg.
Qed.

Lemma add_document_txn_no_fault conn doc_id metadata s :
  add_document_txn E (λ _, None) conn doc_id metadata s
  = add_document E conn doc_id metadata s.
Proof.
  unfold add_document_txn, add_document, try_except, bind.
  destruct (conn_cursor conn s) as [[cursor|e] s1]; [|done].
  destruct (execute_insert E cursor doc_id (json_dumps E metadata) s1) as [[[]|e] s2];
    [|done].
  by rewrite conn_commit_txn_no_fault.
Qed.




End Transactions.

(** ** The run over a commit that can fail *)

Section TxnRuns.
Context (E : Env) (commit_fault : gmap Z string → option exn).

Lemma with_pending_same c : with_pending (c_pending c) c = c.
Proof. by destruct c. Qed.

Lemma Rows_eta (r : Rows) : {| committed := committed r; pending := pending r |} = r.
Proof. by destruct r. Qed.

(** [add_document_txn] on an open connection whose file has a table: one
    [write_row], one log record, nothing else. *)
Lemma add_document_txn_spec conn c t (call : Call) s :
  conns s !! conn = Some c → c_open c = true →
  dbs s !! c_path c = Some t →
  let r := {| committed := t; pending := c_pending c |} in
  add_document_txn E commit_fault conn (call_id call) (call_metadata call) s =
    (Ok tt,
     {| dbs := <[c_path c := committed (write_row E commit_fault r call)]> (dbs s);
        stores := stores s;
        conns := <[conn := with_pending (pending (write_row E commit_fault r call)) c]>
                   (conns s);
        log := log s ++ [row_record E commit_fault r call] |}).
Proof.
  intros Hc Ho Ht. cbv zeta.
  assert (Hlt : conn < length (conns s)) by (by eapply lookup_lt_Some).
  assert (Hsame : <[conn := with_pending (c_pending c) c]> (conns s) = conns s).
  { apply list_insert_id. by rewrite with_pending_same. }
  unfold add_document_txn, try_except, conn_cursor, execute_insert, write_row, row_record.
  unfold bind at 1 2 3. rewrite (get_open_ok _ _ _ Hc Ho). simpl.
  unfold bind at 1 2. rewrite (get_open_ok _ _ _ Hc Ho). simpl.
  rewrite Ht.
  destruct (bool_decide (is_Some (t !! call_id call))
            || bool_decide (is_Some (c_pending c !! call_id call))); simpl.
  { unfold logging, set_log; simpl. f_equal. apply State_eq; simpl; try done.
    by rewrite insert_id. }
  destruct (insert_fault E (call_id call) (json_dumps E (call_metadata call)))
    as [e|] eqn:Hf; simpl.
  { unfold logging, set_log; simpl. f_equal. apply State_eq; simpl; try done.
    by rewrite insert_id. }
  unfold conn_commit_txn. unfold bind at 1.
  erewrite get_open_ok; [| simpl; by apply list_lookup_insert_eq | done].
  simpl. destruct (commit_fault _) as [e|]; simpl.
  - unfold logging, set_log; simpl. f_equal. apply State_eq; simpl; try done.
    by rewrite insert_id.
  - erewrite conn_commit_ok; [| simpl; by apply list_lookup_insert_eq | done].
    unfold logging, set_log, set_conns, set_dbs; simpl. rewrite Ht.
    f_equal. apply State_eq; simpl; try done.
    by rewrite list_insert_insert_eq.
Qed.

(** The writes of a run, one after the other. *)
Lemma write_calls_txn_spec conn vs cs : ∀ c t idx s,
  conns s !! conn = Some c → c_open c = true →
  dbs s !! c_path c = Some t →
  stores s !! vs = Some idx →
  let r := {| committed := t; pending := c_pending c |} in
  for_each (write_call_txn E commit_fault conn vs) cs s =
    (Ok tt,
     {| dbs := <[c_path c := committed (rows_after E commit_fault r cs)]> (dbs s);
        stores := <[vs := idx ++ flat_map (index_adds E) cs]> (stores s);
        conns := <[conn := with_pending (pending (rows_after E commit_fault r cs)) c]>
                   (conns s);
        log := log s ++ records_of E commit_fault r cs |}).
Proof.
  induction cs as [|call cs IH]; intros c t idx s Hc Ho Ht Hs; cbv zeta; simpl.
  - unfold ret. f_equal. apply State_eq; simpl; try done.
    + by rewrite insert_id.
    + by rewrite app_nil_r, insert_id.
    + symmetry. apply list_insert_id. by rewrite with_pending_same.
    + by rewrite app_nil_r.
  - assert (Hlt : conn < length (conns s)) by (by eapply lookup_lt_Some).
    unfold write_call_txn at 1.
    unfold bind at 1 2. erewrite add_document_txn_spec by done.
    erewrite add_summary_spec by done.
    set (r := {| committed := t; pending := c_pending c |}).
    erewrite (IH (with_pending (pending (write_row E commit_fault r call)) c)
                 (committed (write_row E commit_fault r call))); simpl; try done.
    + rewrite Rows_eta. f_equal. apply State_eq; simpl; try done.
      * by rewrite insert_insert_eq.
      * by rewrite insert_insert_eq, <- app_assoc.
      * by rewrite list_insert_insert_eq.
      * by rewrite <- !app_assoc.
    + by apply list_lookup_insert_eq.
    + by rewrite lookup_insert_eq.
    + by rewrite lookup_insert_eq.
Qed.

Lemma elements_run_plan_txn conn vs doc_id filename file_path docs s :
  for_each (process_element_txn E commit_fault conn vs doc_id filename file_path) docs s =
    then_outcome (element_calls E doc_id filename file_path docs).2
      (for_each (write_call_txn E commit_fault conn vs)
         (element_calls E doc_id filename file_path docs).1 s).
Proof.
  revert s. induction docs as [|doc docs IH]; intros s; simpl; [done|].
  unfold process_element_txn at 1. unfold bind at 1 2, lift.
  destruct (summary_chain_run E (text doc)) as [summary|e]; simpl; [|done].
  destruct (element_calls E doc_id filename file_path docs) as [cs r] eqn:Hcs; simpl in *.
  unfold write_call_txn at 1. unfold bind. simpl.
  destruct (add_document_txn E commit_fault conn doc_id _ s) as [[[]|e] s1]; simpl; [|done].
  destruct (add_summary E doc_id summary vs s1) as [[[]|e] s2]; simpl; [|done].
  apply IH.
Qed.

Lemma files_run_plan_txn conn vs folder_path items s :
  for_each (process_file_txn E commit_fault conn vs folder_path) items s =
    then_outcome (file_calls E folder_path items).2
      (for_each (write_call_txn E commit_fault conn vs) (file_calls E folder_path items).1 s).
Proof.
  revert s. induction items as [|[doc_id filename] items IH]; intros s; simpl; [done|].
  unfold bind at 1. unfold bind at 1, lift.
  destruct (partition E (os_path_join folder_path filename)) as [docs|e]; simpl; [|done].
  rewrite elements_run_plan_txn.
  destruct (element_calls E doc_id filename _ docs) as [cs [e|]]; simpl.
  - by destruct (for_each (write_call_txn E commit_fault conn vs) cs s) as [[[]|e'] s1].
  - destruct (file_calls E folder_path items) as [cs' r] eqn:Hcs'; simpl in *.
    rewrite for_each_app.
    destruct (for_each (write_call_txn E commit_fault conn vs) cs s) as [[[]|e'] s1];
      simpl; [|done].
    apply IH.
Qed.

(** The run opens the next connection on [documents.db], performs the
    writes of [plan] against the table and the collection, and closes the
    connection when, and only when, no exception escapes; rows still
    pending are dropped by the close and left pending otherwise. *)
Lemma process_documents_txn_runs_plan folder_path vector_db_path s :
  let r0 := {| committed := default ∅ (dbs s !! the_db); pending := ∅ |} in
  process_documents_txn E commit_fault folder_path vector_db_path s =
    (outcome (plan E folder_path).2,
     {| dbs := <[the_db := committed (rows_after E commit_fault r0 (plan E folder_path).1)]>
                 (dbs s);
        stores := <[the_collection vector_db_path :=
                      summary_index s (the_collection vector_db_path)
                      ++ flat_map (index_adds E) (plan E folder_path).1]> (stores s);
        conns := conns s
                 ++ [ {| c_path := the_db;
                         c_pending :=
                           match (plan E folder_path).2 with
                           | None => ∅
                           | Some _ =>
                             pending (rows_after E commit_fault r0 (plan E folder_path).1)
                           end;
                         c_open := negb (is_ok (outcome (plan E folder_path).2)) |} ];
        log := log s ++ records_of E commit_fault r0 (plan E folder_path).1 |}).
Proof.
  cbv zeta. unfold process_documents_txn.
  erewrite bind_ok by apply connect_db_spec.
  set (h := length (conns s)).
  assert (Hh : ∀ s', conns s' = conns s ++ [fresh_conn the_db] →
                     conns s' !! h = Some (fresh_conn the_db)).
  { intros s' ->. by apply list_lookup_middle. }
  erewrite bind_ok; last by (eapply create_table_spec; [by apply Hh | done | done]).
  erewrite bind_ok by apply Chroma_spec.
  unfold plan. unfold bind at 1, lift.
  destruct (listdir E folder_path) as [entries|e]; simpl.
  2:{ f_equal. apply State_eq; simpl; try done; by rewrite app_nil_r. }
  unfold bind at 1. rewrite files_run_plan_txn.
  destruct (file_calls E folder_path (enumerate 1 entries)) as [cs r]; simpl.
  erewrite (write_calls_txn_spec h _ cs (fresh_conn the_db)); cycle 1.
  - apply Hh. reflexivity.
  - done.
  - simpl. apply lookup_insert_eq.
  - simpl. apply lookup_insert_eq.
  - simpl. destruct r as [e|]; simpl.
    + f_equal. apply State_eq; simpl; try done; try by rewrite insert_insert_eq.
      unfold h. by rewrite insert_app_r_alt, Nat.sub_diag by lia.
    + unfold conn_close; simpl.
      rewrite list_lookup_insert_eq by (rewrite length_app; simpl; lia).
      f_equal.
      apply State_eq; simpl; try done; try by rewrite insert_insert_eq.
      rewrite list_insert_insert_eq.
      unfold h. by rewrite insert_app_r_alt, Nat.sub_diag by lia.
Qed.

Lemma for_each_ext {A} (f g : A → M unit) (l : list A) :
  (∀ x s, f x s = g x s) → ∀ s, for_each f l s = for_each g l s.
Proof.
  intros Hfg. induction l as [|x l IH]; intros s; simpl; [done|].
  unfold bind. rewrite Hfg. destruct (g x s) as [[[]|e] s1]; [apply IH | done].
Qed.

End TxnRuns.

Section TxnFacts.
Context (E : Env).

(** Over a commit that never fails the run is [process_documents]. *)
Lemma process_documents_txn_no_fault folder_path vector_db_path s :
  process_documents_txn E (λ _, None) folder_path vector_db_path s
  = process_documents E folder_path vector_db_path s.
Proof.
  unfold process_documents_txn, process_documents, bind.
  destruct (connect_db None s) as [[conn|e] s1]; [|done].
  destruct (create_table conn s1) as [[[]|e] s2]; [|done].
  destruct (Chroma _ _ s2) as [[vs|e] s3]; [|done].
  destruct (lift (listdir E folder_path) s3) as [[entries|e] s4]; [|done].
  rewrite (for_each_ext (process_file_txn E (λ _, None) conn vs folder_path)
             (process_file E conn vs folder_path)); [done|].
  intros [doc_id filename] s'. unfold process_file_txn, process_file, bind.
  destruct (lift (partition E (os_path_join folder_path filename)) s') as [[docs|e] s5];
    [|done].
  apply for_each_ext. intros doc s''.
  unfold process_element_txn, process_element, bind.
  destruct (lift (summary_chain_run E (text doc)) s'') as [[summary|e] s6]; [|done].
  by rewrite add_document_txn_no_fault.
Qed.

Section Rows.
Context (commit_fault : gmap Z string → option exn).








End Rows.

End TxnFacts.

(** * The claims *)

Section Claims.
Context (E : Env).


(** C1, as the code has it.  [add_document] is a plain INSERT on a primary
    key.  On an open connection with nothing pending, when the file has a
    table: (a) if the table already has a row for the id, the call changes
    nothing but the log, where it reports the integrity error; (b) if the
    table has no row for the id and the engine does not fail, the
    serialized metadata is the row of that id afterwards; (c) when the
    elements of one file are written under the file's id, the row of that
    id afterwards is the metadata of the first element, whatever elements
    follow it. *)
Theorem C1_first_write_wins conn c t vs idx doc_id s :
  conns s !! conn = Some c → c_open c = true → c_pending c = ∅ →
  dbs s !! c_path c = Some t → stores s !! vs = Some idx →
  (∀ metadata old, t !! doc_id = Some old →
     add_document E conn doc_id metadata s
       = (Ok tt, set_log (λ l, l ++ [ErrorAddingDocument doc_id IntegrityError]) s))
  ∧ (∀ metadata, t !! doc_id = None →
       insert_fault E doc_id (json_dumps E metadata) = None →
       record_store_get (add_document E conn doc_id metadata s).2 (c_path c) doc_id
         = Some (json_dumps E metadata))
  ∧ (∀ filename file_path doc docs summary, t !! doc_id = None →
       summary_chain_run E (text doc) = Ok summary →
       insert_fault E doc_id (json_dumps E (build_metadata filename file_path doc)) = None →
       record_store_get
         (for_each (process_element E conn vs doc_id filename file_path) (doc :: docs) s).2
         (c_path c) doc_id
         = Some (json_dumps E (build_metadata filename file_path doc))).
Proof.
  intros Hc Ho Hp Ht Hs. split; [|split].
  - intros metadata old Hold.
    pose proof (add_document_spec E conn c t
                  {| call_id := doc_id; call_metadata := metadata; call_summary := "" |}
                  s Hc Ho Hp Ht) as Hput.
    simpl in Hput. rewrite Hput. clear Hput.
    unfold insert_row, document_record; simpl.
    rewrite bool_decide_eq_true_2 by (by rewrite Hold).
    f_equal. apply State_eq; simpl; try done. by apply insert_id.
  - intros metadata Hnone Hf.
    pose proof (add_document_spec E conn c t
                  {| call_id := doc_id; call_metadata := metadata; call_summary := "" |}
                  s Hc Ho Hp Ht) as Hput.
    simpl in Hput. rewrite Hput. clear Hput.
    unfold record_store_get, insert_row; simpl.
    rewrite lookup_insert_eq; simpl.
    rewrite bool_decide_eq_false_2 by (rewrite Hnone; by intros [? ?]).
    rewrite Hf. apply lookup_insert_eq.
  - intros filename file_path doc docs summary Hnone Hsum Hf.
    rewrite elements_run_plan.
    destruct (element_calls E doc_id filename file_path (doc :: docs)) as [cs0 r0] eqn:Hcs0.
    simpl in Hcs0. rewrite Hsum in Hcs0.
    destruct (element_calls E doc_id filename file_path docs) as [cs r].
    simplify_eq. cbn [fst snd].
    erewrite (write_calls_spec E conn vs c) by done.
    unfold record_store_get; simpl. rewrite lookup_insert_eq; simpl.
    apply foldl_insert_row_keeps. unfold insert_row; simpl.
    rewrite bool_decide_eq_false_2 by (rewrite Hnone; by intros [? ?]).
    rewrite Hf. apply lookup_insert_eq.
Qed.

(** C2, as the code has it.  [partition] is called outside any [try].
    When the listing is [pre ++ f :: post], the files of [pre] partition
    and summarize, and [partition] fails on [f] with [e], the run raises
    [e]; the table and the collection are left as the writes for the files
    of [pre] leave them, so no row and no index entry is added under the id
    of [f] nor under the id of any entry listed after it. *)
Theorem C2_extraction_failure_aborts folder_path vector_db_path pre f post e s :
  listdir E folder_path = Ok (pre ++ f :: post) →
  forallb (file_ok E folder_path) pre = true →
  partition E (os_path_join folder_path f) = Raise e →
  let run := process_documents E folder_path vector_db_path s in
  let writes := (file_calls E folder_path (enumerate 1 pre)).1 in
  run.1 = Raise e
  ∧ dbs run.2 !! the_db = Some (foldl (insert_row E) (default ∅ (dbs s !! the_db)) writes)
  ∧ summary_index run.2 (the_collection vector_db_path)
    = summary_index s (the_collection vector_db_path) ++ flat_map (index_adds E) writes
  ∧ ∀ id, (Z.of_nat (length pre) < id)%Z →
      record_store_get run.2 the_db id = record_store_get s the_db id
      ∧ filter (λ en, e_id en = id) (summary_index run.2 (the_collection vector_db_path))
        = filter (λ en, e_id en = id) (summary_index s (the_collection vector_db_path)).
Proof.
  intros Hl Hpre Hf.
  assert (Hplan : plan E folder_path
                  = ((file_calls E folder_path (enumerate 1 pre)).1, Some e)).
  { unfold plan. rewrite Hl, enumerate_app, file_calls_app.
    pose proof (file_calls_ok E folder_path (enumerate 1 pre)) as Hok.
    rewrite enumerate_snd in Hok. specialize (Hok Hpre).
    destruct (file_calls E folder_path (enumerate 1 pre)) as [cs r]; simpl in *; subst.
    rewrite Hf. simpl. by rewrite app_nil_r. }
  cbv zeta. split; [|split; [|split]].
  - by rewrite process_documents_runs_plan, Hplan.
  - rewrite process_documents_runs_plan, Hplan. simpl. apply lookup_insert_eq.
  - rewrite process_documents_runs_plan, Hplan. unfold summary_index at 1. simpl.
    by rewrite lookup_insert_eq.
  - intros id Hid. apply run_other_ids. rewrite Hplan. simpl.
    eapply Forall_impl; [apply file_calls_ids|]. simpl.
    intros c Hin Heq. rewrite enumerate_fst in Hin.
    apply elem_of_seqZ in Hin. lia.
Qed.

(** C3, as the code has it.  [conn.close()] is the last statement of
    [process_documents] and nothing protects it: the connection the run
    opened is closed exactly when the run returns; when an exception
    escapes, the connection is left open.  Whether an exception escapes is
    decided by the listing, [partition] and the summary chain alone, so a
    failing store write never keeps the connection open. *)
Theorem C3_closed_iff_returns folder_path vector_db_path s :
  let run := process_documents E folder_path vector_db_path s in
  run_conn s run.2
    = Some {| c_path := the_db; c_pending := ∅; c_open := negb (is_ok run.1) |}
  ∧ run.1 = outcome (plan E folder_path).2.
Proof.
  simpl. rewrite process_documents_runs_plan. simpl. split; [|done].
  unfold run_conn; simpl. by rewrite list_lookup_middle.
Qed.


(** C5.  Two runs on the same folder and the same store paths.  The second
    run adds to the collection as many entries as the first, so when the
    collection is empty before the first run it holds after the second run
    exactly twice the entries it holds after the first.  The table of
    [documents.db] is the same after the second run as after the first, so
    its row count is unchanged. *)
Theorem C5_rerun_doubles_index_keeps_rows folder_path vector_db_path s0 :
  let vs := the_collection vector_db_path in
  let s1 := (process_documents E folder_path vector_db_path s0).2 in
  let s2 := (process_documents E folder_path vector_db_path s1).2 in
  length (summary_index s2 vs) + length (summary_index s0 vs)
    = 2 * length (summary_index s1 vs)
  ∧ (summary_index s0 vs = [] →
     length (summary_index s2 vs) = 2 * length (summary_index s1 vs))
  ∧ dbs s2 !! the_db = dbs s1 !! the_db
  ∧ record_store_rows s2 the_db = record_store_rows s1 the_db.
Proof.
  cbv zeta.
  rewrite (process_documents_runs_plan E folder_path vector_db_path s0).
  rewrite process_documents_runs_plan.
  unfold record_store_rows, summary_index in *. cbn [fst snd dbs stores].
  set (idx0 := default [] (stores s0 !! the_collection vector_db_path)) in *.
  set (t0 := default ∅ (dbs s0 !! the_db)).
  rewrite !lookup_insert_eq. simpl.
  rewrite foldl_insert_row_idem.
  rewrite !length_app. repeat split; try lia.
  intros ->. simpl. lia.
Qed.

(** C6.  The loop header pairs the listed entries, in listing order, with
    the ids 1, 2, ..., n: the ids are exactly 1..n, without repetition,
    and the entry at position [i] (from 0) has id [i + 1].  The run works
    under these ids.  The ids of the records it logs are, in order, those
    of the positions of the listing, each id once per write and element of
    its entry: a prefix of that list in any case, the whole list when
    every entry partitions and summarizes, and then, if every entry has
    an element, the ids logged are exactly 1..n, however many elements the
    entries have.  A row the run adds under an id is the metadata of an
    element of the entry at that position, and an index entry it adds under
    an id carries the summary of an element of the entry at that position.
    When the entries before position [i] partition and summarize and the
    first element of the entry at [i] summarizes, the run stores that
    element's metadata under [i + 1] if the id is free and the engine does
    not fail, and indexes its summary under [i + 1] if the index does not
    fail. *)
Theorem C6_ids_follow_listing folder_path vector_db_path entries s :
  listdir E folder_path = Ok entries →
  let run := process_documents E folder_path vector_db_path s in
  let coll := the_collection vector_db_path in
  (enumerate 1 entries).*1 = seqZ 1 (Z.of_nat (length entries))
  ∧ (enumerate 1 entries).*2 = entries
  ∧ NoDup (enumerate 1 entries).*1
  ∧ (∀ i : nat, enumerate 1 entries !! i
                = (λ filename, ((Z.of_nat i + 1)%Z, filename)) <$> entries !! i)
  ∧ ids_logged s run.2 `prefix_of` ids_to_log E folder_path entries
  ∧ (forallb (file_ok E folder_path) entries = true →
     ids_logged s run.2 = ids_to_log E folder_path entries
     ∧ (Forall (λ filename, elements_of E folder_path filename ≠ []) entries →
        (list_to_set (ids_logged s run.2) : gset Z)
        = list_to_set (seqZ 1 (Z.of_nat (length entries)))))
  ∧ (∀ id v,
       record_store_get run.2 the_db id = Some v →
       record_store_get s the_db id = Some v
       ∨ ∃ (i : nat) filename docs doc,
           entries !! i = Some filename
           ∧ id = (Z.of_nat i + 1)%Z
           ∧ partition E (os_path_join folder_path filename) = Ok docs
           ∧ doc ∈ docs
           ∧ v = json_dumps E
                   (build_metadata filename (os_path_join folder_path filename) doc))
  ∧ (∀ en,
       en ∈ summary_index run.2 coll →
       en ∈ summary_index s coll
       ∨ ∃ (i : nat) filename docs doc,
           entries !! i = Some filename
           ∧ e_id en = (Z.of_nat i + 1)%Z
           ∧ partition E (os_path_join folder_path filename) = Ok docs
           ∧ doc ∈ docs
           ∧ summary_chain_run E (text doc) = Ok (e_text en))
  ∧ (∀ (i : nat) filename doc docs summary,
       entries !! i = Some filename →
       forallb (file_ok E folder_path) (take i entries) = true →
       partition E (os_path_join folder_path filename) = Ok (doc :: docs) →
       summary_chain_run E (text doc) = Ok summary →
       (record_store_get s the_db (Z.of_nat i + 1) = None →
        insert_fault E (Z.of_nat i + 1)
          (json_dumps E (build_metadata filename (os_path_join folder_path filename) doc))
        = None →
        record_store_get run.2 the_db (Z.of_nat i + 1)
        = Some (json_dumps E
                  (build_metadata filename (os_path_join folder_path filename) doc)))
       ∧ (add_documents_fault E {| e_text := summary; e_id := Z.of_nat i + 1 |} = None →
          {| e_text := summary; e_id := Z.of_nat i + 1 |} ∈ summary_index run.2 coll)).
Proof.
  intros Hl. cbv zeta.
  split; [apply enumerate_fst|]. split; [apply enumerate_snd|].
  split; [apply enumerate_ids_NoDup|].
  split.
  { intros i. rewrite enumerate_lookup.
    destruct (entries !! i); simpl; [|done]. do 2 f_equal. lia. }
  destruct (run_ids_logged E folder_path vector_db_path entries s Hl) as [Hpre Heq].
  split; [exact Hpre|].
  split.
  { intros Hok. split; [by apply Heq|].
    intros Hne. rewrite (Heq Hok). by apply ids_to_log_all. }
  pose proof (plan_calls_origin E folder_path entries Hl) as Horigin.
  rewrite Forall_forall in Horigin.
  split; [|split].
  - intros id v. rewrite process_documents_runs_plan.
    unfold record_store_get. cbn [fst snd dbs].
    rewrite lookup_insert_eq. cbn [mbind option_bind].
    intros Hv. apply foldl_insert_row_origin in Hv as [Hold|(c & Hc & <- & ->)].
    + left. destruct (dbs s !! the_db); simpl in *; [done|].
      by rewrite lookup_empty in Hold.
    + right.
      destruct (Horigin c Hc)
        as (i & filename & Hi & docs & doc & Hp & Hdoc & _ & Hid & Hmd).
      exists i, filename, docs, doc. by rewrite Hmd.
  - intros en. rewrite process_documents_runs_plan.
    unfold summary_index at 1. cbn [fst snd stores].
    rewrite lookup_insert_eq. cbn [from_option]. unfold id.
    rewrite elem_of_app. intros [Hold|Hnew]; [by left|]. right.
    apply index_adds_origin in Hnew as (c & Hc & -> & _).
    destruct (Horigin c Hc)
      as (i & filename & Hi & docs & doc & Hp & Hdoc & Hsum & Hid & _).
    exists i, filename, docs, doc. by simpl.
  - intros i filename doc docs summary Hi Hpre' Hp Hs.
    assert (Hsplit : entries = take i entries ++ filename :: drop (S i) entries)
      by (symmetry; by apply take_drop_middle).
    assert (Hlen : length (take i entries) = i).
    { apply length_take_le. apply lookup_lt_Some in Hi. lia. }
    rewrite Hsplit in Hl. split.
    + intros Hfree Hf.
      pose proof (run_first_element_row E folder_path vector_db_path (take i entries)
                    filename (drop (S i) entries) doc docs summary s Hl Hpre' Hp Hs)
        as Hrow.
      rewrite Hlen in Hrow. by apply Hrow.
    + intros Hf.
      pose proof (run_first_element_entry E folder_path vector_db_path (take i entries)
                    filename (drop (S i) entries) doc docs summary s Hl Hpre' Hp Hs)
        as Hen.
      rewrite Hlen in Hen. by apply Hen.
Qed.

(** C7.  The metadata the run builds for an element of a listed entry is
    the mapping the specification describes: [filename] is the listed
    name, [source] is the path [os.path.join(folder_path, filename)] that
    was partitioned, [pagenumber] is the page number of the element or 0
    when it has none, [image_count] is the number of its images (so at
    least 0) and [images] sends each position to the path of the image
    there.  It is what the run stores.  (1) When the entries listed before
    [filename] partition and summarize, the first element of [filename]
    summarizes, the id of [filename] has no row and the engine does not
    fail, the row of that id after [process_documents] is this mapping,
    serialized.  (2) So it is for the loop body [process_file] on the pair
    of an id and the listed name, and (3) for [process_element] on any
    element, first or not, of any file, whenever the id is free.  (4) The
    image count is not negative, the keys of [images] are the positions
    0 .. n-1 and the value at a position is the path of the image
    there. *)
Theorem C7_metadata_fields folder_path vector_db_path pre filename post doc docs summary s :
  let file_path := os_path_join folder_path filename in
  let doc_id := (Z.of_nat (length pre) + 1)%Z in
  let imgs := match images doc with Some l => l | None => [] end in
  let m := {| md_filename := filename;
              md_source := file_path;
              md_pagenumber := match page_number doc with Some n => n | None => 0%Z end;
              md_image_count := Z.of_nat (length imgs);
              md_images := imap (λ (i : nat) (img : Image), (i, path img)) imgs |} in
  listdir E folder_path = Ok (pre ++ filename :: post) →
  forallb (file_ok E folder_path) pre = true →
  partition E file_path = Ok (doc :: docs) →
  summary_chain_run E (text doc) = Ok summary →
  record_store_get s the_db doc_id = None →
  insert_fault E doc_id (json_dumps E m) = None →
  m = metadata_as_specified filename file_path doc
  ∧ record_store_get (process_documents E folder_path vector_db_path s).2 the_db doc_id
    = Some (json_dumps E m)
  ∧ (∀ conn c t vs idx id s',
       conns s' !! conn = Some c → c_open c = true → c_pending c = ∅ →
       dbs s' !! c_path c = Some t → stores s' !! vs = Some idx →
       t !! id = None → insert_fault E id (json_dumps E m) = None →
       record_store_get (process_file E conn vs folder_path (id, filename) s').2
         (c_path c) id
       = Some (json_dumps E m))
  ∧ (∀ conn c t vs idx id filename' file_path' doc' summary' s',
       conns s' !! conn = Some c → c_open c = true → c_pending c = ∅ →
       dbs s' !! c_path c = Some t → stores s' !! vs = Some idx →
       summary_chain_run E (text doc') = Ok summary' →
       t !! id = None →
       insert_fault E id (json_dumps E (metadata_as_specified filename' file_path' doc'))
       = None →
       record_store_get (process_element E conn vs id filename' file_path' doc' s').2
         (c_path c) id
       = Some (json_dumps E (metadata_as_specified filename' file_path' doc')))
  ∧ (0 ≤ md_image_count m)%Z
  ∧ (md_images m).*1 = seq 0 (length imgs)
  ∧ (∀ i : nat, (list_to_map (md_images m) : gmap nat string) !! i = path <$> imgs !! i).
Proof.
  intros file_path doc_id imgs m Hl Hpre Hp Hs Hfree Hf.
  assert (Hm : build_metadata filename file_path doc = m)
    by apply build_metadata_as_specified.
  assert (Helement : ∀ conn c t vs idx id filename' file_path' doc' summary' docs' s',
            conns s' !! conn = Some c → c_open c = true → c_pending c = ∅ →
            dbs s' !! c_path c = Some t → stores s' !! vs = Some idx →
            summary_chain_run E (text doc') = Ok summary' →
            t !! id = None →
            insert_fault E id (json_dumps E (build_metadata filename' file_path' doc'))
            = None →
            record_store_get
              (for_each (process_element E conn vs id filename' file_path') (doc' :: docs')
                 s').2
              (c_path c) id
            = Some (json_dumps E (build_metadata filename' file_path' doc'))).
  { intros conn c t vs idx id filename' file_path' doc' summary' docs' s'
      Hc Ho Hpend Ht Hst Hsum Hnone Hfault.
    rewrite elements_run_plan.
    destruct (element_calls E id filename' file_path' (doc' :: docs')) as [cs0 r0] eqn:Hcs0.
    simpl in Hcs0. rewrite Hsum in Hcs0.
    destruct (element_calls E id filename' file_path' docs') as [cs r].
    simplify_eq. cbn [fst snd].
    erewrite (write_calls_spec E conn vs c) by done.
    unfold record_store_get; simpl. rewrite lookup_insert_eq; simpl.
    apply foldl_insert_row_keeps. unfold insert_row; simpl.
    rewrite bool_decide_eq_false_2 by (rewrite Hnone; by intros [? ?]).
    rewrite Hfault. apply lookup_insert_eq. }
  assert (Hlookup : ∀ i : nat, md_images m !! i = (λ img, (i, path img)) <$> imgs !! i).
  { intros i. unfold m. cbn [md_images]. apply list_lookup_imap. }
  assert (Hkeys : (md_images m).*1 = seq 0 (length imgs)).
  { apply list_eq. intros i. rewrite list_lookup_fmap, Hlookup.
    destruct (imgs !! i) as [img|] eqn:Hi; simpl.
    - symmetry. apply lookup_seq. split; [done|]. by eapply lookup_lt_Some.
    - symmetry. apply lookup_seq_ge. by apply lookup_ge_None. }
  split; [done|]. split; [|split; [|split; [|split; [|split]]]].
  - rewrite <- Hm. rewrite <- Hm in Hf.
    by apply (run_first_element_row E folder_path vector_db_path pre filename post
                doc docs summary s).
  - intros conn c t vs idx id s' Hc Ho Hpend Ht Hst Hnone Hfault.
    unfold process_file. unfold bind at 1, lift. fold file_path. rewrite Hp.
    rewrite <- Hm. rewrite <- Hm in Hfault.
    by apply (Helement conn c t vs idx id filename file_path doc summary docs s').
  - intros conn c t vs idx id filename' file_path' doc' summary' s'
      Hc Ho Hpend Ht Hst Hsum Hnone Hfault.
    rewrite <- for_each_one_state.
    rewrite <- build_metadata_as_specified. rewrite <- build_metadata_as_specified in Hfault.
    by apply (Helement conn c t vs idx id filename' file_path' doc' summary' [] s').
  - unfold m. cbn [md_image_count]. lia.
  - exact Hkeys.
  - intros i. destruct (imgs !! i) as [img|] eqn:Hi; simpl.
    + apply elem_of_list_to_map_1.
      * change (NoDup (md_images m).*1). rewrite Hkeys. apply NoDup_seq.
      * change ((i, path img) ∈ md_images m).
        apply list_elem_of_lookup. exists i. by rewrite Hlookup, Hi.
    + apply not_elem_of_list_to_map_1. change (i ∉ (md_images m).*1).
      rewrite Hkeys, elem_of_seq. apply lookup_ge_None in Hi. lia.
Qed.

(** C8.  [run_retrieval_chain] has no [try]: when the chain fails on the
    query with [e], the function raises [e]; it logs no result, and the
    statements after the call are not run (the connection it opened is
    still open).  It returns no value in any case, so no answer reaches
    the caller. *)
Theorem C8_query_failures_propagate vector_db_path query e s :
  retrieval_chain_run E (dbs s !! the_db)
    (summary_index s (the_collection vector_db_path)) query = Raise e →
  let run := run_retrieval_chain E vector_db_path query s in
  run.1 = Raise e
  ∧ log run.2 = log s
  ∧ run_conn s run.2 = Some (fresh_conn the_db).
Proof.
  intros Hfail. simpl. rewrite run_retrieval_chain_spec. simpl. rewrite Hfail. simpl.
  repeat split. unfold run_conn; simpl. by rewrite list_lookup_middle.
Qed.

(** C10.  Both functions call [connect_db()] without an argument: the one
    connection each opens is on the file [documents.db], whatever the
    folder, the vector store path and the query; ingestion leaves every
    other sqlite file as it was and retrieval changes no sqlite file. *)
Theorem C10_record_store_is_documents_db folder_path vector_db_path query s :
  let ingest := (process_documents E folder_path vector_db_path s).2 in
  let retrieve := (run_retrieval_chain E vector_db_path query s).2 in
  connect_db None s = sqlite3_connect "documents.db" s
  ∧ c_path <$> run_conn s ingest = Some "documents.db"%string
  ∧ c_path <$> run_conn s retrieve = Some "documents.db"%string
  ∧ length (conns ingest) = S (length (conns s))
  ∧ length (conns retrieve) = S (length (conns s))
  ∧ delete "documents.db"%string (dbs ingest) = delete "documents.db"%string (dbs s)
  ∧ dbs retrieve = dbs s.
Proof.
  simpl. rewrite process_documents_runs_plan, run_retrieval_chain_spec. simpl.
  unfold run_conn. repeat split.
  - simpl. by rewrite list_lookup_middle.
  - destruct (retrieval_chain_run E _ _ query); simpl; by rewrite list_lookup_middle.
  - rewrite length_app. simpl. lia.
  - destruct (retrieval_chain_run E _ _ query); simpl; rewrite length_app; simpl; lia.
  - apply delete_insert_eq.
  - by destruct (retrieval_chain_run E _ _ query).
Qed.

End Claims.

(** * The claims on the concrete environment *)

Lemma C1_first_write_wins_witness :
  conns Example.ready !! 0 = Some (fresh_conn the_db)
  ∧ dbs Example.ready !! the_db = Some ∅
  ∧ summary_chain_run Example.env (text Example.page1) = Ok "summary: hello world"%string
  ∧ record_store_get
      (for_each (process_element Example.env 0 (the_collection "vdb") 1 "a.txt" "docs/a.txt")
         [Example.page1; Example.page2] Example.ready).2
      the_db 1
    = Some (Example.dumps Example.meta1).
Proof.
  pose proof (C1_first_write_wins Example.env 0 (fresh_conn the_db) ∅
                (the_collection "vdb") [] 1 Example.ready
                eq_refl eq_refl eq_refl eq_refl eq_refl) as (_ & _ & Hfirst).
  split; [reflexivity|]. split; [reflexivity|]. split; [reflexivity|].
  apply (Hfirst "a.txt"%string "docs/a.txt"%string Example.page1 [Example.page2]
           "summary: hello world"%string); reflexivity.
Defined.

(** C1 as stated fails: on a connection in working order, with no engine
    fault, the row of the id after [add_document] is not always the
    metadata just written.  Here the row of id 1 was written for the first
    element of [a.txt] and the write for the second element leaves it. *)
Lemma C1_counterexample_no_overwrite :
  ¬ (∀ (E : Env) conn c t doc_id metadata s,
        conns s !! conn = Some c → c_open c = true → c_pending c = ∅ →
        dbs s !! c_path c = Some t →
        insert_fault E doc_id (json_dumps E metadata) = None →
        record_store_get (add_document E conn doc_id metadata s).2 (c_path c) doc_id
          = Some (json_dumps E metadata)).
Proof.
  intros Hclaim.
  pose (s1 := (add_document Example.env 0 1 Example.meta1 Example.ready).2).
  specialize (Hclaim Example.env 0 (fresh_conn the_db)
                {[ 1%Z := Example.dumps Example.meta1 ]} 1%Z Example.meta2 s1
                eq_refl eq_refl eq_refl eq_refl eq_refl).
  vm_compute in Hclaim. discriminate Hclaim.
Qed.

Lemma C2_extraction_failure_aborts_witness :
  listdir Example.env "mixed" = Ok (["a.txt"%string] ++ "bad.bin"%string :: ["c.txt"%string])
  ∧ forallb (file_ok Example.env "mixed") ["a.txt"%string] = true
  ∧ partition Example.env (os_path_join "mixed" "bad.bin") = Raise ExtractionError
  ∧ (process_documents Example.env "mixed" "vdb" Example.fresh).1 = Raise ExtractionError
  ∧ record_store_get (process_documents Example.env "mixed" "vdb" Example.fresh).2 the_db 2
    = None
  ∧ record_store_get (process_documents Example.env "mixed" "vdb" Example.fresh).2 the_db 3
    = None.
Proof.
  pose proof (C2_extraction_failure_aborts Example.env "mixed" "vdb"
                ["a.txt"%string] "bad.bin" ["c.txt"%string] ExtractionError Example.fresh
                eq_refl eq_refl eq_refl) as (Hraise & _ & _ & Hrest).
  split; [reflexivity|]. split; [reflexivity|]. split; [reflexivity|].
  split; [exact Hraise|]. split.
  - destruct (Hrest 2%Z) as [Hrow _]; [simpl; lia | exact Hrow].
  - destruct (Hrest 3%Z) as [Hrow _]; [simpl; lia | exact Hrow].
Defined.

(** C2 as stated fails: a listed file on which [partition] fails makes the
    run raise.  In the folder [mixed] the second entry does not partition:
    the run ends with the extraction error, and the third entry, which
    partitions and summarizes, is never reached (no row under id 3). *)
Lemma C2_counterexample_run_raises :
  ¬ (∀ (E : Env) folder_path vector_db_path s entries f,
        listdir E folder_path = Ok entries → f ∈ entries →
        is_ok (partition E (os_path_join folder_path f)) = false →
        is_ok (process_documents E folder_path vector_db_path s).1 = true)
  ∧ (process_documents Example.env "mixed" "vdb" Example.fresh).1 = Raise ExtractionError
  ∧ file_ok Example.env "mixed" "c.txt" = true
  ∧ record_store_get (process_documents Example.env "mixed" "vdb" Example.fresh).2 the_db 3
    = None.
Proof.
  split; [|by vm_compute].
  intros Hclaim.
  specialize (Hclaim Example.env "mixed"%string "vdb"%string Example.fresh
                ["a.txt"; "bad.bin"; "c.txt"]%string "bad.bin"%string eq_refl).
  assert (Hin : "bad.bin"%string ∈ ["a.txt"; "bad.bin"; "c.txt"]%string) by (right; left).
  specialize (Hclaim Hin eq_refl). vm_compute in Hclaim. discriminate Hclaim.
Qed.

(** C3 as stated fails: the connection is not closed on every exit path.
    In the folder [mixed] the run raises in the loop and leaves the
    connection it opened open. *)
Lemma C3_counterexample_connection_left_open :
  ¬ (∀ (E : Env) folder_path vector_db_path s,
        c_open <$> run_conn s (process_documents E folder_path vector_db_path s).2
          = Some false)
  ∧ run_conn Example.fresh (process_documents Example.env "mixed" "vdb" Example.fresh).2
    = Some (fresh_conn the_db).
Proof.
  split; [|by vm_compute].
  intros Hclaim.
  specialize (Hclaim Example.env "mixed"%string "vdb"%string Example.fresh).
  vm_compute in Hclaim. discriminate Hclaim.
Qed.

Lemma C3_closed_iff_returns_witness :
  (process_documents Example.env "docs" "vdb" Example.fresh).1 = Ok tt
  ∧ run_conn Example.fresh (process_documents Example.env "docs" "vdb" Example.fresh).2
    = Some (close_conn (fresh_conn the_db))
  ∧ (process_documents Example.env "hard" "vdb" Example.fresh).1 = Raise SummarizationError
  ∧ run_conn Example.fresh (process_documents Example.env "hard" "vdb" Example.fresh).2
    = Some (fresh_conn the_db).
Proof.
  pose proof (C3_closed_iff_returns Example.env "docs" "vdb" Example.fresh) as [Hdocs _].
  pose proof (C3_closed_iff_returns Example.env "hard" "vdb" Example.fresh) as [Hhard _].
  split; [reflexivity|]. split; [exact Hdocs|]. split; [reflexivity | exact Hhard].
Defined.



Lemma C5_rerun_doubles_index_keeps_rows_witness :
  let vs := the_collection "vdb" in
  let s1 := (process_documents Example.env "docs" "vdb" Example.fresh).2 in
  let s2 := (process_documents Example.env "docs" "vdb" s1).2 in
  summary_index Example.fresh vs = []
  ∧ length (summary_index s1 vs) = 2
  ∧ record_store_rows s1 the_db = 1
  ∧ length (summary_index s2 vs) = 2 * length (summary_index s1 vs)
  ∧ record_store_rows s2 the_db = record_store_rows s1 the_db.
Proof.
  pose proof (C5_rerun_doubles_index_keeps_rows Example.env "docs" "vdb" Example.fresh)
    as (_ & Hidx & _ & Hrows).
  split; [reflexivity|]. split; [reflexivity|]. split; [reflexivity|].
  split; [exact (Hidx eq_refl) | exact Hrows].
Defined.

(** In the folder [faulty] every entry partitions and summarizes and has
    one element: the ids logged are 1, 2 and 3, twice each, and the row of
    id 3 is the metadata of the element of the third entry. *)
Lemma C6_ids_follow_listing_witness :
  listdir Example.env "faulty" = Ok ["a.txt"; "b.txt"; "c.txt"]%string
  ∧ ids_logged Example.fresh (process_documents Example.env "faulty" "vdb" Example.fresh).2
    = [1; 1; 2; 2; 3; 3]%Z
  ∧ record_store_get (process_documents Example.env "faulty" "vdb" Example.fresh).2 the_db 3
    = Some (Example.dumps (build_metadata "c.txt" "faulty/c.txt" Example.page3)).
Proof.
  pose proof (C6_ids_follow_listing Example.env "faulty" "vdb"
                ["a.txt"; "b.txt"; "c.txt"]%string Example.fresh eq_refl)
    as (_ & _ & _ & _ & _ & Hall & _ & _ & Hfirst).
  destruct (Hall eq_refl) as [Hids _].
  destruct (Hfirst 2 "c.txt"%string Example.page3 [] "summary: third page"%string
              eq_refl eq_refl eq_refl eq_refl) as [Hrow _].
  split; [reflexivity|]. split; [exact Hids | exact (Hrow eq_refl eq_refl)].
Defined.

(** In the folder [docs] the row of id 1 is the metadata of the first page
    of [a.txt], with its two images. *)
Lemma C7_metadata_fields_witness :
  listdir Example.env "docs" = Ok ["a.txt"%string]
  ∧ partition Example.env "docs/a.txt" = Ok [Example.page1; Example.page2]
  ∧ record_store_get (process_documents Example.env "docs" "vdb" Example.fresh).2 the_db 1
    = Some (Example.dumps
              {| md_filename := "a.txt";
                 md_source := "docs/a.txt";
                 md_pagenumber := 1;
                 md_image_count := 2;
                 md_images := [(0, "img/fig1.png"%string); (1, "img/fig2.png"%string)] |}).
Proof.
  pose proof (C7_metadata_fields Example.env "docs" "vdb" [] "a.txt" [] Example.page1
                [Example.page2] "summary: hello world" Example.fresh
                eq_refl eq_refl eq_refl eq_refl eq_refl eq_refl) as (_ & Hrow & _).
  split; [reflexivity|]. split; [reflexivity | exact Hrow].
Defined.

Lemma C8_query_failures_propagate_witness :
  retrieval_chain_run Example.env (dbs Example.fresh !! the_db)
    (summary_index Example.fresh (the_collection "vdb")) "" = Raise EmbeddingError
  ∧ (run_retrieval_chain Example.env "vdb" "" Example.fresh).1 = Raise EmbeddingError
  ∧ log (run_retrieval_chain Example.env "vdb" "" Example.fresh).2 = [].
Proof.
  pose proof (C8_query_failures_propagate Example.env "vdb" "" EmbeddingError Example.fresh
                eq_refl) as (Hraise & Hlog & _).
  split; [reflexivity|]. split; [exact Hraise | exact Hlog].
Defined.



Lemma C10_record_store_is_documents_db_witness :
  c_path <$> run_conn Example.fresh
               (process_documents Example.env "docs" "some/other/place" Example.fresh).2
    = Some "documents.db"%string
  ∧ c_path <$> run_conn Example.fresh
                 (run_retrieval_chain Example.env "some/other/place" "a question"
                    Example.fresh).2
    = Some "documents.db"%string.
Proof.
  pose proof (C10_record_store_is_documents_db Example.env "docs" "some/other/place"
                "a question" Example.fresh) as (_ & Hingest & Hretrieve & _).
  split; [exact Hingest | exact Hretrieve].
Defined.

(** * Further properties of the script *)

Section Further.
Context (E : Env).

(** ** Helpers *)

Lemma retrieval_frame vector_db_path query s :
  let run := run_retrieval_chain E vector_db_path query s in
  dbs run.2 = dbs s
  ∧ (∀ vs, summary_index run.2 vs = summary_index s vs)
  ∧ length (conns run.2) = S (length (conns s))
  ∧ run.1 = match retrieval_chain_run E (dbs s !! the_db)
                    (summary_index s (the_collection vector_db_path)) query with
            | Ok _ => Ok tt
            | Raise e => Raise e
            end.
Proof.
  cbv zeta. rewrite run_retrieval_chain_spec. cbv zeta.
  assert (Hidx : ∀ vs,
            default [] (<[the_collection vector_db_path :=
                            summary_index s (the_collection vector_db_path)]> (stores s) !! vs)
            = summary_index s vs).
  { intros vs. destruct (decide (the_collection vector_db_path = vs)) as [<-|Hne].
    - by rewrite lookup_insert_eq.
    - by rewrite lookup_insert_ne. }
  destruct (retrieval_chain_run E _ _ query) as [answer|e]; simpl;
    (split; [done|]; split; [apply Hidx|]; split; [|done]);
    rewrite length_app; simpl; lia.
Qed.

(** ** [create_table] *)

(** X1. [create_table] (lines 21-29), called on a connection with nothing
    pending.  It is not guarded: on a closed connection it raises and
    changes nothing.  On an open one it returns; a file that already has
    the table is left exactly as it is, rows included; a file without one
    gets an empty table; no other file is touched; and a second call
    changes nothing more. *)
Theorem create_table_keeps_rows conn c s :
  conns s !! conn = Some c → c_pending c = ∅ →
  if c_open c then
    (create_table conn s).1 = Ok tt
    ∧ (∀ t, dbs s !! c_path c = Some t → (create_table conn s).2 = s)
    ∧ (dbs s !! c_path c = None →
       dbs (create_table conn s).2 = <[c_path c := ∅]> (dbs s))
    ∧ (∀ p, p ≠ c_path c → dbs (create_table conn s).2 !! p = dbs s !! p)
    ∧ create_table conn (create_table conn s).2 = create_table conn s
  else create_table conn s = (Raise ProgrammingError, s).
Proof.
  intros Hc Hp. destruct (c_open c) eqn:Ho.
  - rewrite (create_table_spec conn c s Hc Ho Hp). simpl. repeat split.
    + intros t Ht. apply State_eq; simpl; try done. rewrite Ht. by apply insert_id.
    + intros Hnone. by rewrite Hnone.
    + intros p Hne. by rewrite lookup_insert_ne.
    + erewrite create_table_spec; [| exact Hc | done | done]. f_equal.
      apply State_eq; simpl; try done.
      rewrite lookup_insert_eq. simpl. by rewrite insert_insert_eq.
  - unfold create_table, conn_cursor, bind, get_open. by rewrite Hc, Ho.
Qed.

(** ** [run_retrieval_chain] *)

(** X2. [run_retrieval_chain] (lines 83-107) when the chain answers: the
    function returns, logs the answer and nothing else, and closes the
    connection it opened.  Whether the chain answers or raises, no table
    changes (none is created when the file has none), every collection
    keeps its entries, and the connections that existed are untouched. *)
Theorem retrieval_only_reads vector_db_path query s :
  let run := run_retrieval_chain E vector_db_path query s in
  dbs run.2 = dbs s
  ∧ (∀ vs, summary_index run.2 vs = summary_index s vs)
  ∧ take (length (conns s)) (conns run.2) = conns s
  ∧ ∀ answer,
      retrieval_chain_run E (dbs s !! the_db)
        (summary_index s (the_collection vector_db_path)) query = Ok answer →
      run.1 = Ok tt
      ∧ log run.2 = log s ++ [QueryResult answer]
      ∧ run_conn s run.2 = Some (close_conn (fresh_conn the_db)).
Proof.
  cbv zeta. rewrite run_retrieval_chain_spec. cbv zeta.
  assert (Hidx : ∀ vs,
            default [] (<[the_collection vector_db_path :=
                            summary_index s (the_collection vector_db_path)]> (stores s) !! vs)
            = summary_index s vs).
  { intros vs. destruct (decide (the_collection vector_db_path = vs)) as [<-|Hne].
    - by rewrite lookup_insert_eq.
    - by rewrite lookup_insert_ne. }
  destruct (retrieval_chain_run E _ _ query) as [answer|e]; simpl.
  - split; [done|]. split; [apply Hidx|]. split; [by rewrite take_app_length|].
    intros a [= <-]. repeat split. unfold run_conn; simpl. by rewrite list_lookup_middle.
  - split; [done|]. split; [apply Hidx|]. split; [by rewrite take_app_length|].
    intros a [=].
Qed.

(** ** What a run leaves alone, and what it always creates *)

(** X4. [process_documents] (lines 52-80): whatever the folder holds, and
    even when it cannot be listed, the run leaves [documents.db] with a
    table and the collection in existence (both are opened before the
    folder is read).  It touches no other collection and none of the
    connections that existed, and it only appends to the log. *)
Theorem ingestion_creates_its_stores_first folder_path vector_db_path s :
  let run := process_documents E folder_path vector_db_path s in
  is_Some (dbs run.2 !! the_db)
  ∧ is_Some (stores run.2 !! the_collection vector_db_path)
  ∧ (∀ vs, vs ≠ the_collection vector_db_path → stores run.2 !! vs = stores s !! vs)
  ∧ take (length (conns s)) (conns run.2) = conns s
  ∧ log s `prefix_of` log run.2.
Proof.
  cbv zeta. rewrite process_documents_runs_plan. simpl. repeat split.
  - rewrite lookup_insert_eq. by eexists.
  - rewrite lookup_insert_eq. by eexists.
  - intros vs Hne. by rewrite lookup_insert_ne.
  - by rewrite take_app_length.
  - by eexists.
Qed.

(** ** [main] *)

(** X3. [main] (lines 110-118) asks its query only of what its ingestion
    left.  When ingestion raises, [main] raises the same exception in the
    state ingestion left: the query is never asked.  When ingestion
    returns, the chain is run over the table of [documents.db], which then
    exists, and over the collection as ingestion left them; [main] returns
    or raises as the chain does, opens two connections in all and changes
    no row and no index entry after ingestion. *)
Theorem main_queries_what_it_ingested s :
  let ingest := process_documents E main_folder_path main_vector_db_path s in
  let vs := the_collection main_vector_db_path in
  match ingest.1 with
  | Raise e => main E s = (Raise e, ingest.2)
  | Ok _ =>
    (∃ t, dbs ingest.2 !! the_db = Some t
          ∧ (main E s).1 = match retrieval_chain_run E (Some t) (summary_index ingest.2 vs)
                                   main_query with
                           | Ok _ => Ok tt
                           | Raise e => Raise e
                           end)
    ∧ length (conns (main E s).2) = 2 + length (conns s)
    ∧ dbs (main E s).2 = dbs ingest.2
    ∧ ∀ vs', summary_index (main E s).2 vs' = summary_index ingest.2 vs'
  end.
Proof.
  cbv zeta.
  assert (Hmain : main E s
                  = match process_documents E main_folder_path main_vector_db_path s with
                    | (Ok _, s1) => run_retrieval_chain E main_vector_db_path main_query s1
                    | (Raise e, s1) => (Raise e, s1)
                    end) by reflexivity.
  rewrite Hmain. clear Hmain.
  pose proof (process_documents_runs_plan E main_folder_path main_vector_db_path s) as Hrun.
  destruct (process_documents E main_folder_path main_vector_db_path s) as [r s1].
  assert (Ht : ∃ t, dbs s1 !! the_db = Some t).
  { injection Hrun as _ ->. simpl. rewrite lookup_insert_eq. by eexists. }
  assert (Hlen : length (conns s1) = S (length (conns s))).
  { injection Hrun as _ ->. simpl. rewrite length_app. simpl. lia. }
  clear Hrun. cbn [fst snd]. destruct r as [[]|e]; [|done].
  destruct Ht as [t Ht].
  pose proof (retrieval_frame main_vector_db_path main_query s1)
    as (Hdbs & Hidx & Hconns & Hres).
  cbv zeta in *. rewrite Ht in Hres.
  split; [|split; [|split; [exact Hdbs | exact Hidx]]].
  - by exists t.
  - rewrite Hconns, Hlen. lia.
Qed.

(** ** Folders with nothing to ingest *)

Lemma file_calls_blank folder_path items :
  Forall (λ f, partition E (os_path_join folder_path f) = Ok []) items.*2 →
  file_calls E folder_path items = ([], None).
Proof.
  induction items as [|[doc_id filename] items IH]; simpl; [done|].
  intros H. inversion H as [|? ? Hp Hrest]; subst. rewrite Hp. simpl.
  by rewrite (IH Hrest).
Qed.

(** X5. A folder that lists nothing, or whose entries all partition into
    no element: [process_documents] returns, logs nothing, adds no row and
    no index entry anywhere, and closes its connection.  Such an entry
    uses up its id and leaves no trace in either store. *)
Theorem nothing_to_ingest folder_path vector_db_path entries s :
  listdir E folder_path = Ok entries →
  Forall (λ f, partition E (os_path_join folder_path f) = Ok []) entries →
  let run := process_documents E folder_path vector_db_path s in
  run.1 = Ok tt
  ∧ log run.2 = log s
  ∧ (∀ id, record_store_get run.2 the_db id = record_store_get s the_db id)
  ∧ (∀ vs, summary_index run.2 vs = summary_index s vs)
  ∧ run_conn s run.2 = Some (close_conn (fresh_conn the_db)).
Proof.
  intros Hl Hblank. cbv zeta.
  assert (Hplan : plan E folder_path = ([], None)).
  { unfold plan. rewrite Hl. apply file_calls_blank. by rewrite enumerate_snd. }
  rewrite process_documents_runs_plan, Hplan. simpl. repeat split.
  - by rewrite app_nil_r.
  - intros id. unfold record_store_get; simpl. rewrite lookup_insert_eq; simpl.
    by destruct (dbs s !! the_db).
  - intros vs. unfold summary_index; simpl. rewrite app_nil_r.
    destruct (decide (the_collection vector_db_path = vs)) as [<-|Hne].
    + by rewrite lookup_insert_eq.
    + by rewrite lookup_insert_ne.
  - unfold run_conn; simpl. by rewrite list_lookup_middle.
Qed.

(** ** How much a run can add, and where it comes from *)



(** X7. Every row in [documents.db] after a run was there before it with
    the same value, or is the serialized metadata of an element of the
    listed entry whose 1-based position is the row's id: a run never
    stores under an id the metadata of another entry's file. *)
Theorem ingested_rows_come_from_listing folder_path vector_db_path entries s id v :
  listdir E folder_path = Ok entries →
  record_store_get (process_documents E folder_path vector_db_path s).2 the_db id = Some v →
  record_store_get s the_db id = Some v
  ∨ ∃ (i : nat) filename docs doc,
      entries !! i = Some filename
      ∧ id = (Z.of_nat i + 1)%Z
      ∧ partition E (os_path_join folder_path filename) = Ok docs
      ∧ doc ∈ docs
      ∧ v = json_dumps E (build_metadata filename (os_path_join folder_path filename) doc).
Proof.
  intros Hl. rewrite process_documents_runs_plan.
  unfold record_store_get. cbn [fst snd dbs].
  rewrite lookup_insert_eq. cbn [mbind option_bind].
  intros Hv. apply foldl_insert_row_origin in Hv as [Hold|(c & Hc & <- & ->)].
  - left. destruct (dbs s !! the_db); simpl in *; [done|]. by rewrite lookup_empty in Hold.
  - right. pose proof (plan_calls_origin E folder_path entries Hl) as Horigin.
    rewrite Forall_forall in Horigin.
    destruct (Horigin c Hc) as (i & filename & Hi & docs & doc & Hp & Hdoc & _ & Hid & Hmd).
    exists i, filename, docs, doc. by rewrite Hmd.
Qed.

(** X8. Every entry of the collection after a run was there before it, or
    carries the summary of an element of the listed entry whose 1-based
    position is the entry's id. *)
Theorem indexed_summaries_come_from_listing folder_path vector_db_path entries s en :
  listdir E folder_path = Ok entries →
  en ∈ summary_index (process_documents E folder_path vector_db_path s).2
         (the_collection vector_db_path) →
  en ∈ summary_index s (the_collection vector_db_path)
  ∨ ∃ (i : nat) filename docs doc,
      entries !! i = Some filename
      ∧ e_id en = (Z.of_nat i + 1)%Z
      ∧ partition E (os_path_join folder_path filename) = Ok docs
      ∧ doc ∈ docs
      ∧ summary_chain_run E (text doc) = Ok (e_text en).
Proof.
  intros Hl. rewrite process_documents_runs_plan.
  unfold summary_index at 1. cbn [fst snd stores].
  rewrite lookup_insert_eq. cbn [from_option]. unfold id.
  rewrite elem_of_app. intros [Hold|Hnew]; [by left|]. right.
  apply index_adds_origin in Hnew as (c & Hc & -> & _).
  pose proof (plan_calls_origin E folder_path entries Hl) as Horigin.
  rewrite Forall_forall in Horigin.
  destruct (Horigin c Hc) as (i & filename & Hi & docs & doc & Hp & Hdoc & Hsum & Hid & _).
  exists i, filename, docs, doc. by simpl.
Qed.

(** ** One element *)

Lemma add_document_frame conn doc_id metadata s :
  ∃ s', add_document E conn doc_id metadata s = (Ok tt, s')
        ∧ stores s' = stores s
        ∧ length (log s') = S (length (log s)).
Proof.
  unfold add_document, try_except, conn_cursor, execute_insert, conn_commit, get_open, bind,
    logging.
  destruct (conns s !! conn) as [c|] eqn:Hc; simpl;
    [|eexists; split; [done|]; simpl; rewrite length_app; simpl; split; [done | lia]].
  destruct (c_open c) eqn:Ho; simpl;
    [|eexists; split; [done|]; simpl; rewrite length_app; simpl; split; [done | lia]].
  rewrite Hc, Ho; simpl.
  destruct (dbs s !! c_path c) as [t|]; simpl;
    [|eexists; split; [done|]; simpl; rewrite length_app; simpl; split; [done | lia]].
  destruct (_ || _); simpl;
    [eexists; split; [done|]; simpl; rewrite length_app; simpl; split; [done | lia]|].
  destruct (insert_fault E doc_id _); simpl;
    [eexists; split; [done|]; simpl; rewrite length_app; simpl; split; [done | lia]|].
  assert (Hlt : conn < length (conns s)) by (by eapply lookup_lt_Some).
  rewrite list_lookup_insert_eq by done. simpl. rewrite Ho. simpl.
  eexists; split; [done|]; simpl; rewrite length_app; simpl; split; [done | lia].
Qed.

(** X9. One pass of the loop body (lines 67-78), in any state.  The
    summary is computed before anything is written: when it fails, the
    pass raises and leaves no row, no entry and no log record.  When it
    succeeds the pass returns and logs two records, and the summary is
    appended to the collection unless the index write itself fails,
    whether or not the row was written (closed connection, missing table,
    duplicate id, engine failure): the index can hold an id that has no
    row of that element. *)
Theorem element_summary_is_indexed_whatever_the_row
    conn vs doc_id filename file_path doc s :
  let pass := process_element E conn vs doc_id filename file_path doc s in
  match summary_chain_run E (text doc) with
  | Raise e => pass = (Raise e, s)
  | Ok summary =>
    let entry := {| e_text := summary; e_id := doc_id |} in
    pass.1 = Ok tt
    ∧ length (log pass.2) = 2 + length (log s)
    ∧ summary_index pass.2 vs
      = summary_index s vs ++ match add_documents_fault E entry with
                              | Some _ => []
                              | None => [entry]
                              end
  end.
Proof.
  cbv zeta. unfold process_element. cbv zeta. unfold bind at 1, lift.
  destruct (summary_chain_run E (text doc)) as [summary|e]; [|done].
  unfold bind.
  destruct (add_document_frame conn doc_id (build_metadata filename file_path doc) s)
    as (s1 & -> & Hstores & Hlog).
  unfold add_summary, try_except, add_documents, bind, logging. simpl.
  destruct (add_documents_fault E _); simpl.
  - rewrite length_app, Hlog. simpl. split; [done|]. split; [lia|].
    unfold summary_index. simpl. by rewrite Hstores, app_nil_r.
  - rewrite length_app, Hlog. simpl. split; [done|]. split; [lia|].
    unfold summary_index. simpl. by rewrite lookup_insert_eq, Hstores.
Qed.

(** ** Rows across connections *)


(** ** Paths *)

Lemma append_inj_l (a b1 b2 : string) : (a ++ b1)%string = (a ++ b2)%string → b1 = b2.
Proof. induction a as [|ch a IH]; simpl; [done|]. intros [= H]. by apply IH. Qed.

(** X11. The loop body (lines 63-78) hands [partition] the path
    [os.path.join(folder_path, filename)] and no other: what it does
    depends on [partition] at that path only, a failure of [partition]
    there is the failure of the body, with nothing written or logged, and
    a file with no element is passed over.  For names as a listing gives
    them (no leading slash) two different entries of one folder are
    partitioned under different paths; a name that starts with a slash is
    partitioned as it is, whatever the folder. *)
Theorem partition_gets_the_joined_path conn vs folder_path doc_id filename s :
  let file_path := os_path_join folder_path filename in
  (∀ partition',
     partition' file_path = partition E file_path →
     process_file (with_partition E partition') conn vs folder_path (doc_id, filename) s
     = process_file E conn vs folder_path (doc_id, filename) s)
  ∧ (∀ e, partition E file_path = Raise e →
          process_file E conn vs folder_path (doc_id, filename) s = (Raise e, s))
  ∧ (partition E file_path = Ok [] →
     process_file E conn vs folder_path (doc_id, filename) s = (Ok tt, s))
  ∧ (∀ filename',
       startswith_sep filename = false → startswith_sep filename' = false →
       os_path_join folder_path filename' = file_path → filename' = filename)
  ∧ (startswith_sep filename = true → file_path = filename).
Proof.
  cbv zeta. split; [|split; [|split; [|split]]].
  - intros partition' Hsame. unfold process_file, bind, lift.
    cbn [partition with_partition]. rewrite Hsame.
    by destruct (partition E (os_path_join folder_path filename)).
  - intros e Hp. unfold process_file. unfold bind, lift. by rewrite Hp.
  - intros Hp. unfold process_file. unfold bind, lift. by rewrite Hp.
  - unfold os_path_join, sep. intros filename' -> ->.
    destruct (_ || _); intros H.
    + by apply append_inj_l in H.
    + apply append_inj_l in H. by injection H.
  - unfold os_path_join. by intros ->.
Qed.

(** ** The log as an account of the index *)

Lemma records_of_counts commit_fault cs : ∀ r,
  length (flat_map (index_adds E) cs)
  = count_records is_summary_added (records_of E commit_fault r cs).
Proof.
  unfold count_records.
  induction cs as [|c cs IH]; intros r; [done|].
  cbn [flat_map records_of].
  rewrite length_app, (IH (write_row E commit_fault r c)). clear IH.
  assert (Hdoc : is_summary_added (row_record E commit_fault r c) = false).
  { unfold row_record. destruct (_ || _); [done|].
    destruct (insert_fault E _ _); [done|]. by destruct (commit_fault _). }
  assert (Hlen : length (index_adds E c)
                 = if is_summary_added (summary_record E c) then 1 else 0).
  { unfold index_adds, summary_record. by destruct (add_documents_fault E _). }
  rewrite Hlen. cbn [List.filter]. rewrite Hdoc.
  by destruct (is_summary_added (summary_record E c)).
Qed.

(** X12. The log of a run is an exact account of what it indexed: the
    number of entries the run added to the collection is the number of
    "Summary ... added successfully" records it logged, whether the run
    returns or raises and whatever happens to the row writes, a failing
    commit included. *)
Theorem log_counts_indexed_summaries commit_fault folder_path vector_db_path s :
  let run := process_documents E folder_path vector_db_path s in
  let run' := process_documents_txn E commit_fault folder_path vector_db_path s in
  length (summary_index run.2 (the_collection vector_db_path))
  = length (summary_index s (the_collection vector_db_path))
    + count_records is_summary_added (new_records s run.2)
  ∧ length (summary_index run'.2 (the_collection vector_db_path))
    = length (summary_index s (the_collection vector_db_path))
      + count_records is_summary_added (new_records s run'.2).
Proof.
  assert (Hany : ∀ commit_fault',
    length (summary_index
              (process_documents_txn E commit_fault' folder_path vector_db_path s).2
              (the_collection vector_db_path))
    = length (summary_index s (the_collection vector_db_path))
      + count_records is_summary_added
          (new_records s
             (process_documents_txn E commit_fault' folder_path vector_db_path s).2)).
  { intros commit_fault'.
    pose proof (process_documents_txn_runs_plan E commit_fault' folder_path
                  vector_db_path s) as Hrun.
    cbv zeta in Hrun. rewrite Hrun.
    unfold new_records. cbn [fst snd log].
    unfold summary_index at 1. cbn [stores].
    rewrite lookup_insert_eq. cbn [from_option]. unfold id.
    rewrite drop_app_length, length_app.
    by rewrite (records_of_counts commit_fault' (plan E folder_path).1
                  {| committed := default ∅ (dbs s !! the_db); pending := ∅ |}). }
  cbv zeta. split; [|apply Hany].
  rewrite <- process_documents_txn_no_fault. apply Hany.
Qed.

(** ** When a run returns *)

Lemma element_calls_returns doc_id filename file_path docs :
  (element_calls E doc_id filename file_path docs).2 = None →
  forallb (λ doc, is_ok (summary_chain_run E (text doc))) docs = true.
Proof.
  induction docs as [|doc docs IH]; simpl; [done|].
  destruct (summary_chain_run E (text doc)); simpl; [|done].
  destruct (element_calls E doc_id filename file_path docs); simpl in *. exact IH.
Qed.

Lemma file_calls_returns folder_path items :
  (file_calls E folder_path items).2 = None →
  forallb (file_ok E folder_path) items.*2 = true.
Proof.
  induction items as [|[doc_id filename] items IH]; simpl; [done|].
  unfold file_ok at 1.
  destruct (partition E (os_path_join folder_path filename)) as [docs|]; simpl; [|done].
  pose proof (element_calls_returns doc_id filename (os_path_join folder_path filename) docs)
    as Hel.
  destruct (element_calls E doc_id filename _ docs) as [cs [e|]]; simpl in *; [done|].
  destruct (file_calls E folder_path items); simpl in *.
  intros Hnone. apply andb_true_iff. split; [by apply Hel | by apply IH].
Qed.

(** X13. [process_documents] returns normally only if the folder can be
    listed, every listed entry partitions and every element of every entry
    summarizes: one entry that does not partition (a subdirectory, an
    unsupported file) or one element that does not summarize keeps the run
    from returning. *)
Theorem ingestion_returns_only_if_sources_ok folder_path vector_db_path s :
  (process_documents E folder_path vector_db_path s).1 = Ok tt →
  ∃ entries, listdir E folder_path = Ok entries
             ∧ forallb (file_ok E folder_path) entries = true.
Proof.
  rewrite process_documents_runs_plan. cbn [fst snd].
  unfold plan. destruct (listdir E folder_path) as [entries|e]; simpl; [|done].
  intros Hok. exists entries. split; [done|].
  pose proof (file_calls_returns folder_path (enumerate 1 entries)) as Hret.
  rewrite enumerate_snd in Hret. apply Hret.
  by destruct (file_calls E folder_path (enumerate 1 entries)).2.
Qed.

End Further.

(** * The further properties on the concrete environments *)

Lemma create_table_keeps_rows_witness :
  conns Example.ready !! 0 = Some (fresh_conn the_db)
  ∧ (create_table 0 Example.ready).1 = Ok tt
  ∧ (create_table 0 Example.ready).2 = Example.ready.
Proof.
  pose proof (create_table_keeps_rows 0 (fresh_conn the_db) Example.ready eq_refl eq_refl)
    as (Hok & Hsame & _).
  split; [reflexivity|]. split; [exact Hok | exact (Hsame ∅ eq_refl)].
Defined.

Lemma nothing_to_ingest_witness :
  listdir Edge.env "blank" = Ok ["e.txt"%string]
  ∧ Forall (λ f, partition Edge.env (os_path_join "blank" f) = Ok []) ["e.txt"%string]
  ∧ (process_documents Edge.env "blank" "vdb" Example.fresh).1 = Ok tt
  ∧ log (process_documents Edge.env "blank" "vdb" Example.fresh).2 = []
  ∧ record_store_get (process_documents Edge.env "blank" "vdb" Example.fresh).2 the_db 1
    = None.
Proof.
  assert (Hblank : Forall (λ f, partition Edge.env (os_path_join "blank" f) = Ok [])
                     ["e.txt"%string]) by (constructor; [reflexivity | constructor]).
  pose proof (nothing_to_ingest Edge.env "blank" "vdb" ["e.txt"%string] Example.fresh
                eq_refl Hblank) as (Hok & Hlog & Hrows & _).
  split; [reflexivity|]. split; [exact Hblank|]. split; [exact Hok|].
  split; [exact Hlog | exact (Hrows 1%Z)].
Defined.


Lemma ingested_rows_come_from_listing_witness :
  listdir Example.env "docs" = Ok ["a.txt"%string]
  ∧ record_store_get (process_documents Example.env "docs" "vdb" Example.fresh).2 the_db 1
    = Some (Example.dumps Example.meta1)
  ∧ (record_store_get Example.fresh the_db 1 = Some (Example.dumps Example.meta1)
     ∨ ∃ (i : nat) filename docs doc,
         ["a.txt"%string] !! i = Some filename
         ∧ 1%Z = (Z.of_nat i + 1)%Z
         ∧ partition Example.env (os_path_join "docs" filename) = Ok docs
         ∧ doc ∈ docs
         ∧ Example.dumps Example.meta1
           = json_dumps Example.env
               (build_metadata filename (os_path_join "docs" filename) doc)).
Proof.
  split; [reflexivity|]. split; [reflexivity|].
  exact (ingested_rows_come_from_listing Example.env "docs" "vdb" ["a.txt"%string]
           Example.fresh 1%Z (Example.dumps Example.meta1) eq_refl eq_refl).
Defined.

Lemma indexed_summaries_come_from_listing_witness :
  let en := {| e_text := "summary: second page"; e_id := 1 |} in
  listdir Example.env "docs" = Ok ["a.txt"%string]
  ∧ en ∈ summary_index (process_documents Example.env "docs" "vdb" Example.fresh).2
           (the_collection "vdb")
  ∧ (en ∈ summary_index Example.fresh (the_collection "vdb")
     ∨ ∃ (i : nat) filename docs doc,
         ["a.txt"%string] !! i = Some filename
         ∧ e_id en = (Z.of_nat i + 1)%Z
         ∧ partition Example.env (os_path_join "docs" filename) = Ok docs
         ∧ doc ∈ docs
         ∧ summary_chain_run Example.env (text doc) = Ok (e_text en)).
Proof.
  assert (Hin : {| e_text := "summary: second page"; e_id := 1 |}
                ∈ summary_index (process_documents Example.env "docs" "vdb" Example.fresh).2
                    (the_collection "vdb")).
  { vm_compute. right. left. }
  split; [reflexivity|]. split; [exact Hin|].
  exact (indexed_summaries_come_from_listing Example.env "docs" "vdb" ["a.txt"%string]
           Example.fresh _ eq_refl Hin).
Defined.

(** An element written through a closed connection: the row write fails
    and is logged, the summary is indexed all the same. *)
Lemma element_summary_is_indexed_whatever_the_row_witness :
  let closed := set_conns (λ cs, close_conn <$> cs) Example.ready in
  let pass := process_element Example.env 0 (the_collection "vdb") 1 "a.txt" "docs/a.txt"
                Example.page1 closed in
  pass.1 = Ok tt
  ∧ summary_index pass.2 (the_collection "vdb")
    = [ {| e_text := "summary: hello world"; e_id := 1 |} ]
  ∧ record_store_get pass.2 the_db 1 = None
  ∧ log pass.2 = [ErrorAddingDocument 1 ProgrammingError; SummaryAdded 1].
Proof.
  pose proof (element_summary_is_indexed_whatever_the_row Example.env 0
                (the_collection "vdb") 1 "a.txt" "docs/a.txt" Example.page1
                (set_conns (λ cs, close_conn <$> cs) Example.ready)) as Hpass.
  simpl in Hpass. destruct Hpass as (Hok & _ & Hidx).
  split; [exact Hok|]. split; [exact Hidx|]. split; reflexivity.
Defined.


(** The second entry of the folder [mixed] does not partition: the loop
    body raises the failure and leaves the state as it was. *)
Lemma partition_gets_the_joined_path_witness :
  partition Example.env "mixed/bad.bin" = Raise ExtractionError
  ∧ process_file Example.env 0 (the_collection "vdb") "mixed" (2%Z, "bad.bin"%string)
      Example.ready
    = (Raise ExtractionError, Example.ready).
Proof.
  pose proof (partition_gets_the_joined_path Example.env 0 (the_collection "vdb") "mixed"
                2 "bad.bin" Example.ready) as (_ & Hraise & _).
  split; [reflexivity | exact (Hraise ExtractionError eq_refl)].
Defined.

(** The folder [faulty]: three elements, one index write fails; two
    entries are indexed and two successes logged. *)
Lemma log_counts_indexed_summaries_witness :
  let run := process_documents Example.env "faulty" "vdb" Example.fresh in
  length (summary_index run.2 (the_collection "vdb")) = 2
  ∧ count_records is_summary_added (log run.2) = 2
  ∧ length (summary_index run.2 (the_collection "vdb"))
    = length (summary_index Example.fresh (the_collection "vdb"))
      + count_records is_summary_added (new_records Example.fresh run.2).
Proof.
  pose proof (log_counts_indexed_summaries Example.env busy_for_one_row "faulty" "vdb"
                Example.fresh) as [Hidx _].
  split; [reflexivity|]. split; [reflexivity | exact Hidx].
Defined.

Lemma ingestion_returns_only_if_sources_ok_witness :
  (process_documents Example.env "faulty" "vdb" Example.fresh).1 = Ok tt
  ∧ ∃ entries, listdir Example.env "faulty" = Ok entries
               ∧ forallb (file_ok Example.env "faulty") entries = true.
Proof.
  split; [reflexivity|].
  exact (ingestion_returns_only_if_sources_ok Example.env "faulty" "vdb" Example.fresh
           eq_refl).
Defined.
